(** * GCP RHEL License Explorer: the BYOS-to-PAYG reconciliation core

    A shallow embedding of [internal/api] (instance catalog, YAML export,
    reconciliation matcher, license conversion engine, conversion verifier)
    together with the properties of the specification that concern it.

    Conventions of the embedding.
    - Go strings are byte strings: [string] (a list of [ascii]).
    - A Go slice is a [list]; [append(xs, x)] is [xs ++ [x]].
    - The Go map built by the matcher is a [gmap string Instance].
    - Everything outside the repository that a loop iteration consults
      (the Compute API, the HTTP client, the JSON decoder) is an oracle of
      answers, see [Backend]; the YAML library is an interface with its
      round-trip law, see [Yaml].
    - Console output, pauses and outgoing requests are recorded as a trace
      of [Event]s, in program order. *)

From Stdlib Require Import ZArith Ascii.
From stdpp Require Import base option list strings gmap.

Local Open Scope Z_scope.
Local Open Scope nat_scope.

(** ** The Go library functions the code calls, on byte strings *)

Module strings.

Definition slash : ascii := "/"%char.

(** [strings.Split(s, "/")]: the source only ever splits on a one-byte
    separator.  The result is never empty: [Split "" = [""]]. *)
Fixpoint Split (sep : ascii) (s : string) : list string :=
  match s with
  | EmptyString => [""]
  | String c rest =>
      if Ascii.eqb c sep then "" :: Split sep rest
      else match Split sep rest with
           | [] => [String c ""]
           | part :: parts => String c part :: parts
           end
  end.

(** [strings.Join(elems, sep)]. *)
Fixpoint Join (elems : list string) (sep : string) : string :=
  match elems with
  | [] => ""
  | [e] => e
  | e :: rest => e +:+ sep +:+ Join rest sep
  end.

(** [strings.HasPrefix(s, prefix)]. *)
Fixpoint HasPrefix (s prefix : string) : bool :=
  match prefix, s with
  | EmptyString, _ => true
  | String _ _, EmptyString => false
  | String p prefix', String c s' => Ascii.eqb c p && HasPrefix s' prefix'
  end.

(** [strings.Contains(s, substr)]. *)
Fixpoint Contains (s substr : string) : bool :=
  HasPrefix s substr ||
  match s with
  | EmptyString => false
  | String _ s' => Contains s' substr
  end.

(** [strings.TrimPrefix(s, prefix)]. *)
Fixpoint dropBytes (n : nat) (s : string) : string :=
  match n, s with
  | S n', String _ s' => dropBytes n' s'
  | _, _ => s
  end.

Definition TrimPrefix (s prefix : string) : string :=
  if HasPrefix s prefix then dropBytes (String.length prefix) s else s.

(** [strings.ToLower] on the bytes 'A'..'Z'.  Go lowercases every Unicode
    rune; here bytes above 127 are left as they are.  The only ASCII bytes
    Go's result can have beyond these are 'k' and 'i' (from the Kelvin sign
    and the dotted capital I), so the two agree on whether a marker such as
    rhel-8 occurs in the result. *)
Definition lowerByte (c : ascii) : ascii :=
  let n := nat_of_ascii c in
  if (65 <=? n) && (n <=? 90) then ascii_of_nat (n + 32) else c.

Fixpoint ToLower (s : string) : string :=
  match s with
  | EmptyString => ""
  | String c rest => String (lowerByte c) (ToLower rest)
  end.

End strings.

Module path.

(** The loop of [path.Base] that strips trailing slashes. *)
Fixpoint stripTrailingSlashes (p : string) : string :=
  match p with
  | EmptyString => ""
  | String c rest =>
      match stripTrailingSlashes rest with
      | EmptyString => if Ascii.eqb c strings.slash then "" else String c ""
      | kept => String c kept
      end
  end.

(** [path.Base(p)]: "." for the empty path, "/" for a path of slashes
    only, otherwise what follows the last slash once trailing slashes are
    stripped (the last element of the split on '/'). *)
Definition Base (p : string) : string :=
  match p with
  | EmptyString => "."
  | _ =>
      let stripped := stripTrailingSlashes p in
      let element := default stripped (last (strings.Split strings.slash stripped)) in
      match element with
      | EmptyString => "/"
      | _ => element
      end
  end.

End path.

(** [parts[len(parts)-k]], for an index the source has guarded. *)
Definition fromEnd (parts : list string) (k : nat) : string :=
  default "" (parts !! (length parts - k)).

(** ** Data model *)

(** [api.Instance] (instances.go). *)
Record Instance := mkInstance {
  Name : string;
  Zone : string;
  MachineType : string;
  Status : string;
  IP : string;
  LicenseCodes : list string;
  DiskType : string;
  DiskSizeGB : Z;
  Project : string
}.

(** [api.InstanceExport] (export.go); the fields carry the record's name as
    a prefix because [Name], [Zone], ... are the projections of [Instance]. *)
Record InstanceExport := mkInstanceExport {
  ExportName : string;
  ExportZone : string;
  ExportMachineType : string;
  ExportStatus : string;
  ExportLicenses : list string
}.

(** [api.PAYGConversion] (payg_converter.go). *)
Record PAYGConversion := mkPAYGConversion {
  ConvInstance : Instance;
  OriginalOS : string;
  ConversionURL : string;
  Success : bool;
  NewOS : string
}.

(** The parts of the Compute API's answers that the code reads. *)
Record AccessConfig := { NatIP : string }.
Record NetworkInterface := { AccessConfigs : list AccessConfig }.

Record AttachedDisk := mkAttachedDisk {
  Source : string;
  AttachedType : string;
  Interface : string;
  DiskSizeGb : Z;
  AttachedLicenses : list string
}.

Record ComputeInstance := mkComputeInstance {
  ApiName : string;
  ApiStatus : string;
  ApiMachineType : string;
  NetworkInterfaces : list NetworkInterface;
  Disks : list AttachedDisk
}.

Record Disk := mkDisk {
  SourceImage : string;
  Licenses : list string
}.

(** ** Instance catalog (instances.go, [ListInstances]) *)

(** One turn of the loop over [bootDisk.Licenses]: exactly one [append] on
    either branch. *)
Definition catalogLicenseStep (licenseCodes : list string) (license : string)
  : list string :=
  let licenseName := path.Base license in
  let parts := strings.Split strings.slash license in
  if 6 <=? length parts then
    let project := fromEnd parts 4 in
    let licenseCode := fromEnd parts 1 in
    licenseCodes ++ [project +:+ ":" +:+ licenseCode]
  else
    licenseCodes ++ [licenseName].

Definition catalogLicenseCodes (licenses : list string) : list string :=
  foldl catalogLicenseStep [] licenses.

(** The body of the loop over the instances of one zone: the summary the
    catalog keeps of an API instance.  The result pages and the zones of a
    page are iterated by [ListInstances] below. *)
Definition summarizeInstance (projectID zoneKey : string) (instance : ComputeInstance)
  : Instance :=
  let zoneName := strings.TrimPrefix zoneKey "zones/" in
  let machineType :=
    default (ApiMachineType instance)
            (last (strings.Split strings.slash (ApiMachineType instance))) in
  let ip :=
    match NetworkInterfaces instance with
    | nic :: _ =>
        match AccessConfigs nic with
        | cfg :: _ => NatIP cfg
        | [] => ""
        end
    | [] => ""
    end in
  let '(licenseCodes, diskType, diskSizeGB) :=
    match Disks instance with
    | bootDisk :: _ =>
        let diskType :=
          match Interface bootDisk with
          | EmptyString => AttachedType bootDisk
          | iface => iface +:+ "-" +:+ AttachedType bootDisk
          end in
        (catalogLicenseCodes (AttachedLicenses bootDisk), diskType, DiskSizeGb bootDisk)
    | [] => ([], "", 0%Z)
    end in
  {| Name := ApiName instance;
     Zone := zoneName;
     MachineType := machineType;
     Status := ApiStatus instance;
     IP := ip;
     LicenseCodes := licenseCodes;
     DiskType := diskType;
     DiskSizeGB := diskSizeGB;
     Project := projectID |}.

(** ** Conversion verifier: the license extraction of [VerifyConversion] *)

(** One turn of the loop over [disk.Licenses] (payg_converter.go, lines
    320-327): the [if] has no [else]. *)
Definition verifierLicenseStep (licenseCodes : list string) (license : string)
  : list string :=
  let parts := strings.Split strings.slash license in
  if 6 <=? length parts then
    let project := fromEnd parts 4 in
    let licenseCode := fromEnd parts 1 in
    licenseCodes ++ [project +:+ ":" +:+ licenseCode]
  else
    licenseCodes.

Definition verifierLicenseCodes (licenses : list string) : list string :=
  foldl verifierLicenseStep [] licenses.


(** ** Errors, the backend oracle and the trace *)

(** A Go [error] is the text it prints as. *)
Definition error := string.

Inductive Result (A : Type) : Type :=
| Ok (value : A)
| Err (err : error).
Arguments Ok {A} value.
Arguments Err {A} err.

(** The HTTP response to the disk patch, and the operation decoded from its
    body. *)
Record Response := mkResponse {
  StatusCode : Z;
  RespStatus : string;
  Body : string
}.

Record Operation := mkOperation {
  OpName : string;
  OpStatus : string;
  OpZone : string
}.

(** The answers of everything outside the repository that one loop iteration
    consults.  Each iteration issues each kind of call at most once. *)
Record Backend := mkBackend {
  (** [computeService.Instances.Get(project, zone, name).Context(ctx).Do()] *)
  InstancesGet : string -> string -> string -> Result ComputeInstance;
  (** [computeService.Disks.Get(project, zone, disk).Context(ctx).Do()] *)
  DisksGet : string -> string -> string -> Result Disk;
  (** [http.NewRequest(method, url, body)]: [Some] is the error *)
  NewRequest : string -> string -> string -> option error;
  (** [google.DefaultClient(ctx, compute.ComputeScope)]: [Some] is the error *)
  DefaultClient : option error;
  (** [client.Do(req)], of the request's url and body *)
  ClientDo : string -> string -> Result Response;
  (** [json.Unmarshal(body, &operation)] *)
  DecodeOperation : string -> Result Operation
}.

(** The handle [computeService] as the code sees it over time: [svc i] holds
    the answers given during iteration [i] of the loop that uses it. *)
Definition ComputeService := nat -> Backend.

(** The lines the code prints, by the call that prints them. *)
Inductive LogLine :=
| LogMissingWarning (count : nat)
| LogMissingKey (key : string)
| LogBlank
| LogInstanceStatus (name status : string)
| LogNotRunningNote
| LogInstanceGetError (name : string) (err : error)
| LogNoDisks (name : string)
| LogNoDiskName (name : string)
| LogNoLicenseCodes (name : string)
| LogDiskGetErrorDefaultRhel9 (err : error)
| LogDetectedRhel8 (sourceImage : string)
| LogDefaultRhel9
| LogCouldNotDetermineLicense (name os : string)
| LogNewRequestError (name : string) (err : error)
| LogConvertingDisk (name paygLicense : string)
| LogClientError (name : string) (err : error)
| LogMakingRequest (url : string)
| LogDoError (name : string) (err : error)
| LogApiFailed (name : string) (code : Z) (status body : string)
| LogApiResponse (code : Z) (status : string)
| LogOperation (opName opStatus diskName : string)
| LogWaitingForPropagation
| LogVerifying (name status : string)
| LogVerifyInstanceError (err : error)
| LogVerifyNoDisks (name : string)
| LogVerifyNoDiskName (name : string)
| LogCheckingDisk (diskName : string)
| LogVerifyDiskError (err : error)
| LogFoundLicenses (count : nat) (codes : string)
| LogNoLicensesNotRunning
| LogNoLicensesRunning.

Inductive Event :=
| Printf (line : LogLine)
| Sleep (seconds : Z)
| HttpPatch (url body : string).

(** The slice being built and what has happened so far. *)
Record RunState := mkRunState {
  results : list PAYGConversion;
  trace : list Event
}.

Definition emptyRun : RunState := {| results := []; trace := [] |}.

Definition emit (events : list Event) (st : RunState) : RunState :=
  {| results := results st; trace := trace st ++ events |}.

(** [results = append(results, conversion)]. *)
Definition appendResult (conversion : PAYGConversion) (st : RunState) : RunState :=
  {| results := results st ++ [conversion]; trace := trace st |}.

Definition setSuccess (ok : bool) (c : PAYGConversion) : PAYGConversion :=
  {| ConvInstance := ConvInstance c; OriginalOS := OriginalOS c;
     ConversionURL := ConversionURL c; Success := ok; NewOS := NewOS c |}.

Definition setConversionURL (url : string) (c : PAYGConversion) : PAYGConversion :=
  {| ConvInstance := ConvInstance c; OriginalOS := OriginalOS c;
     ConversionURL := url; Success := Success c; NewOS := NewOS c |}.

Definition setNewOS (newOS : string) (c : PAYGConversion) : PAYGConversion :=
  {| ConvInstance := ConvInstance c; OriginalOS := OriginalOS c;
     ConversionURL := ConversionURL c; Success := Success c; NewOS := newOS |}.

(** The failure exits of the conversion loop:
    [conversion.Success = false; results = append(results, conversion);
     fmt.Printf(...); continue]. *)
Definition failed (conversion : PAYGConversion) (line : LogLine) (st : RunState)
  : RunState :=
  emit [Printf line] (appendResult (setSuccess false conversion) st).

(** ** License conversion engine (payg_converter.go, [ConvertToPAYG]) *)

Definition rhel8Server : string :=
  "https://www.googleapis.com/compute/v1/projects/rhel-cloud/global/licenses/rhel-8-server".
Definition rhel9Server : string :=
  "https://www.googleapis.com/compute/v1/projects/rhel-cloud/global/licenses/rhel-9-server".

Definition nonEmpty (s : string) : bool := negb (String.eqb s "").

(** The disk name: the last segment of the boot disk's [Source], or [""]. *)
Definition diskNameOf (bootDisk : AttachedDisk) : string :=
  if nonEmpty (Source bootDisk) then
    default "" (last (strings.Split strings.slash (Source bootDisk)))
  else "".

(** [strings.ToLower(strings.Join(instance.LicenseCodes, " "))]. *)
Definition currentOSOf (instance : Instance) : string :=
  strings.ToLower (strings.Join (LicenseCodes instance) " ").

(** The [switch] of lines 143-174.  [None] is its [default:] case, where no
    target license is chosen; the events are what the chosen case prints. *)
Definition choosePaygLicense (b : Backend) (instance : Instance) (diskName : string)
  : option string * list Event :=
  let currentOS := currentOSOf instance in
  if strings.Contains currentOS "rhel-8" then (Some rhel8Server, [])
  else if strings.Contains currentOS "rhel-9" then (Some rhel9Server, [])
  else if length (LicenseCodes instance) =? 0 then
    let asked := Printf (LogNoLicenseCodes (Name instance)) in
    match DisksGet b (Project instance) (Zone instance) diskName with
    | Err err => (Some rhel9Server, [asked; Printf (LogDiskGetErrorDefaultRhel9 err)])
    | Ok disk =>
        if nonEmpty (SourceImage disk)
           && strings.Contains (strings.ToLower (SourceImage disk)) "rhel-8"
        then (Some rhel8Server, [asked; Printf (LogDetectedRhel8 (SourceImage disk))])
        else (Some rhel9Server, [asked; Printf LogDefaultRhel9])
    end
  else (None, []).

Definition dquote : string := String (ascii_of_nat 34) "".

(** [fmt.Sprintf] of the request body, a JSON object of the disk name and a
    one-element license list. *)
Definition patchBody (diskName paygLicense : string) : string :=
  "{" +:+ dquote +:+ "name" +:+ dquote +:+ ":" +:+ dquote +:+ diskName +:+ dquote
  +:+ ", " +:+ dquote +:+ "licenses" +:+ dquote +:+ ":[" +:+ dquote +:+ paygLicense
  +:+ dquote +:+ "]}".

Definition patchURL (instance : Instance) (diskName : string) : string :=
  "https://www.googleapis.com/compute/alpha/projects/" +:+ Project instance
  +:+ "/zones/" +:+ Zone instance +:+ "/disks/" +:+ diskName +:+ "?paths=licenses".

Definition isRunning (instance : Instance) : bool :=
  String.eqb (Status instance) "RUNNING".

(** Lines 176-255: the patch request and the provisional outcome. *)
Definition patchDisk (b : Backend) (instance : Instance) (diskName paygLicense : string)
    (conversion : PAYGConversion) (st : RunState) : RunState :=
  let apiURL := patchURL instance diskName in
  let conversion := setConversionURL apiURL conversion in
  let requestBody := patchBody diskName paygLicense in
  match NewRequest b "PATCH" apiURL requestBody with
  | Some err => failed conversion (LogNewRequestError (Name instance) err) st
  | None =>
      let st := emit [Printf (LogConvertingDisk (Name instance) paygLicense)] st in
      match DefaultClient b with
      | Some err => failed conversion (LogClientError (Name instance) err) st
      | None =>
          let st := emit [Printf (LogMakingRequest apiURL); HttpPatch apiURL requestBody] st in
          match ClientDo b apiURL requestBody with
          | Err err => failed conversion (LogDoError (Name instance) err) st
          | Ok resp =>
              if (StatusCode resp <? 200)%Z || (300 <=? StatusCode resp)%Z then
                failed conversion
                  (LogApiFailed (Name instance) (StatusCode resp) (RespStatus resp) (Body resp)) st
              else
                let st := emit [Printf (LogApiResponse (StatusCode resp) (RespStatus resp))] st in
                let st :=
                  match DecodeOperation b (Body resp) with
                  | Ok operation =>
                      if nonEmpty (OpName operation) then
                        emit [Printf (LogOperation (OpName operation) (OpStatus operation) diskName);
                              Sleep 5] st
                      else st
                  | Err _ => st
                  end in
                let conversion := setSuccess true conversion in
                let conversion :=
                  if isRunning instance then
                    setNewOS ("PAYG: Converting to " +:+ paygLicense) conversion
                  else
                    setNewOS ("PAYG license applied to disk (VM status: "
                              +:+ Status instance +:+ ")") conversion in
                appendResult conversion st
          end
      end
  end.

(** The body of the loop over [instances]. *)
Definition convertInstance (b : Backend) (instance : Instance) (st : RunState)
  : RunState :=
  let conversion :=
    {| ConvInstance := instance;
       OriginalOS := strings.Join (LicenseCodes instance) ", ";
       ConversionURL := ""; Success := false; NewOS := "" |} in
  let st := emit [Printf (LogInstanceStatus (Name instance) (Status instance))] st in
  let st := if isRunning instance then st else emit [Printf LogNotRunningNote] st in
  match InstancesGet b (Project instance) (Zone instance) (Name instance) with
  | Err err => failed conversion (LogInstanceGetError (Name instance) err) st
  | Ok instanceObj =>
      match Disks instanceObj with
      | [] => failed conversion (LogNoDisks (Name instance)) st
      | bootDisk :: _ =>
          let diskName := diskNameOf bootDisk in
          if nonEmpty diskName then
            match choosePaygLicense b instance diskName with
            | (Some paygLicense, printed) =>
                patchDisk b instance diskName paygLicense conversion (emit printed st)
            | (None, _) =>
                failed conversion
                  (LogCouldNotDetermineLicense (Name instance)
                     (strings.Join (LicenseCodes instance) ", ")) st
            end
          else failed conversion (LogNoDiskName (Name instance)) st
      end
  end.

(** [for _, instance := range instances], iteration [i] first. *)
Fixpoint convertLoop (svc : ComputeService) (i : nat) (instances : list Instance)
    (st : RunState) : RunState :=
  match instances with
  | [] => st
  | instance :: rest => convertLoop svc (S i) rest (convertInstance (svc i) instance st)
  end.

(** [ConvertToPAYG]; its error result is always [nil]. *)
Definition ConvertToPAYG (instances : list Instance) (svc : ComputeService) : RunState :=
  convertLoop svc 0 instances emptyRun.

(** ** Conversion verifier (payg_converter.go, [VerifyConversion]) *)

(** [conversions[i].NewOS = newOS]. *)
Definition assignNewOS (i : nat) (newOS : string) (st : RunState) : RunState :=
  {| results := alter (setNewOS newOS) i (results st); trace := trace st |}.

(** The body of the loop [for i, conversion := range conversions]; the slice
    is updated in place, so [results st] is [conversions] as it stands when
    iteration [i] starts. *)
Definition verifyConversionAt (b : Backend) (i : nat) (st : RunState) : RunState :=
  match results st !! i with
  | None => st
  | Some conversion =>
      if negb (Success conversion) then st
      else
        let instance := ConvInstance conversion in
        let st := emit [Printf (LogVerifying (Name instance) (Status instance))] st in
        match InstancesGet b (Project instance) (Zone instance) (Name instance) with
        | Err err => emit [Printf (LogVerifyInstanceError err)] st
        | Ok instanceObj =>
            match Disks instanceObj with
            | [] => emit [Printf (LogVerifyNoDisks (Name instance))] st
            | bootDisk :: _ =>
                let diskName := diskNameOf bootDisk in
                if nonEmpty diskName then
                  let st := emit [Printf (LogCheckingDisk diskName)] st in
                  match DisksGet b (Project instance) (Zone instance) diskName with
                  | Err err => emit [Printf (LogVerifyDiskError err)] st
                  | Ok disk =>
                      let licenseCodes := verifierLicenseCodes (Licenses disk) in
                      if 0 <? length licenseCodes then
                        let joined := strings.Join licenseCodes ", " in
                        assignNewOS i joined
                          (emit [Printf (LogFoundLicenses (length licenseCodes) joined)] st)
                      else if negb (isRunning instance) then
                        assignNewOS i "License changed, but VM needs to be started to verify"
                          (emit [Printf LogNoLicensesNotRunning] st)
                      else
                        assignNewOS i "License change may be pending"
                          (emit [Printf LogNoLicensesRunning] st)
                  end
                else emit [Printf (LogVerifyNoDiskName (Name instance))] st
            end
        end
  end.

(** [VerifyConversion]: the pause, then one pass over the indices of the
    slice; the slice itself is returned. *)
Definition VerifyConversion (conversions : list PAYGConversion) (svc : ComputeService)
  : RunState :=
  foldl (fun st i => verifyConversionAt (svc i) i st)
        {| results := conversions;
           trace := [Printf LogWaitingForPropagation; Sleep 15] |}
        (seq 0 (length conversions)).

(** Lines 229-239 of [handleBYOStoPAYG] (management.go): the conversion
    batch, then the verification pass over its records.  The backend may
    answer differently by then, hence the second oracle. *)
Definition convertAndVerify (matched : list Instance) (during after : ComputeService)
  : RunState :=
  let converted := ConvertToPAYG matched during in
  let verified := VerifyConversion (results converted) after in
  {| results := results verified; trace := trace converted ++ trace verified |}.

(** The pauses of a trace, in order. *)
Definition pauses (events : list Event) : list Z :=
  omap (fun e => match e with Sleep seconds => Some seconds | _ => None end) events.

(** The patch requests of a trace, in order. *)
Definition patches (events : list Event) : list (string * string) :=
  omap (fun e => match e with HttpPatch url body => Some (url, body) | _ => None end)
       events.

(** ** Inventory export and the reconciliation matcher *)

(** [gopkg.in/yaml.v3] on [[]InstanceExport]: what a file holds is a
    [document]; decoding what was encoded gives the records back. *)
Class Yaml := {
  document : Type;
  Marshal : list InstanceExport -> Result document;
  Unmarshal : document -> Result (list InstanceExport);
  Unmarshal_Marshal : forall records data,
    Marshal records = Ok data -> Unmarshal data = Ok records
}.

(** The YAML interface read structurally: a document is the sequence of
    records it denotes. *)
Definition parsedYaml : Yaml := {|
  document := list InstanceExport;
  Marshal := Ok;
  Unmarshal := Ok;
  Unmarshal_Marshal := fun _ _ same => eq_sym same
|}.

Definition noMatchError : error :=
  "no matching instances found between file and current project".

Definition exportFilename (projectID : string) : string :=
  projectID +:+ "-instances.yml".

(** [fmt.Sprintf("%s/%s", zone, name)]. *)
Definition matchKey (zone name : string) : string := zone +:+ "/" +:+ name.

Definition instanceKey (instance : Instance) : string :=
  matchKey (Zone instance) (Name instance).

Definition exportKey (fileInstance : InstanceExport) : string :=
  matchKey (ExportZone fileInstance) (ExportName fileInstance).

Definition toExport (instance : Instance) : InstanceExport :=
  {| ExportName := Name instance;
     ExportZone := Zone instance;
     ExportMachineType := MachineType instance;
     ExportStatus := Status instance;
     ExportLicenses := LicenseCodes instance |}.

(** The working directory: file name to contents.  A file that exists can
    be read; a write can fail. *)
Abbreviation FileSystem := (gmap string document).

(** What one call of [os.WriteFile] does: it writes the file; or it fails
    before touching it (the file cannot be created or opened); or it fails
    after creating or truncating it, and the file holds what was written
    until then. *)
Inductive WriteOutcome (D : Type) : Type :=
| Written
| NotWritten (err : error)
| PartlyWritten (err : error) (leftover : D).
Arguments Written {D}.
Arguments NotWritten {D} err.
Arguments PartlyWritten {D} err leftover.

(** The operating system, as far as the program asks it to write. *)
Class Os {yaml : Yaml} := {
  writeOutcome : string -> document -> WriteOutcome document
}.

Section Files.
Context {yaml : Yaml} {os : Os}.

(** [os.WriteFile(filename, data, 0644)]: the directory afterwards and the
    error, if any. *)
Definition WriteFile (filename : string) (data : document) (fs : FileSystem)
  : FileSystem * option error :=
  match writeOutcome filename data with
  | Written => (<[filename := data]> fs, None)
  | NotWritten err => (fs, Some err)
  | PartlyWritten err leftover => (<[filename := leftover]> fs, Some err)
  end.

(** [ExportInstancesToYAML] (export.go): the directory afterwards and the
    error, if any. *)
Definition ExportInstancesToYAML (instances : list Instance) (projectID : string)
    (fs : FileSystem) : FileSystem * option error :=
  let filename := exportFilename projectID in
  let exportData :=
    foldl (fun exportData instance => exportData ++ [toExport instance]) [] instances in
  match Marshal exportData with
  | Err err => (fs, Some ("failed to marshal instances to YAML: " +:+ err))
  | Ok yamlData =>
      match WriteFile filename yamlData fs with
      | (fs, Some err) => (fs, Some ("failed to write YAML to file: " +:+ err))
      | (fs, None) => (fs, None)
      end
  end.

(** Lines 49-54: the lookup of the live instances; a later instance with
    the same key replaces an earlier one. *)
Definition buildInstanceMap (instances : list Instance) : gmap string Instance :=
  foldl (fun instanceMap instance => <[instanceKey instance := instance]> instanceMap)
        ∅ instances.

(** Lines 60-67: one record of the file against the lookup. *)
Definition matchStep (instanceMap : gmap string Instance)
    (acc : list Instance * list string) (fileInstance : InstanceExport)
  : list Instance * list string :=
  let '(matchedInstances, missingInstances) := acc in
  let key := exportKey fileInstance in
  match instanceMap !! key with
  | Some instance => (matchedInstances ++ [instance], missingInstances)
  | None => (matchedInstances, missingInstances ++ [key])
  end.

Definition matchRecords (instances : list Instance) (fileInstances : list InstanceExport)
  : list Instance * list string :=
  foldl (matchStep (buildInstanceMap instances)) ([], []) fileInstances.

(** Lines 69-76: the report of the records that matched no live instance. *)
Definition missingReport (missingInstances : list string) : list Event :=
  if 0 <? length missingInstances then
    Printf (LogMissingWarning (length missingInstances))
    :: (Printf ∘ LogMissingKey <$> missingInstances) ++ [Printf LogBlank]
  else [].

(** [CheckInstancesFromFile]: the result and what was printed. *)
Definition CheckInstancesFromFile (projectID : string) (instances : list Instance)
    (fs : FileSystem) : Result (list Instance) * list Event :=
  let filename := exportFilename projectID in
  match fs !! filename with
  | None =>
      (Err ("file " +:+ filename +:+ " not found. Please export instance list first"), [])
  | Some data =>
      match Unmarshal data with
      | Err err => (Err ("error parsing YAML: " +:+ err), [])
      | Ok fileInstances =>
          let '(matchedInstances, missingInstances) :=
            matchRecords instances fileInstances in
          let printed := missingReport missingInstances in
          if length matchedInstances =? 0 then
            (Err noMatchError, printed)
          else (Ok matchedInstances, printed)
      end
  end.

End Files.

(** ** Listing calls (instances.go [ListInstances], projects.go [ListProjects]) *)

(** [req.Pages(ctx, f)] of the generated API client: fetch a page, hand it
    to [f], and go on while the page names a next one.  [fetches] holds the
    answers of the successive fetches; the closures the code passes never
    return an error, so [f] only updates what they have collected.  The
    result is what was collected and the error, if any; [None] when the
    answers run out while another page is due. *)
Fixpoint Pages {P A : Type} (nextPageToken : P -> string) (f : A -> P -> A)
    (fetches : list (Result P)) (collected : A) : option (A * option error) :=
  match fetches with
  | [] => None
  | Err err :: _ => Some (collected, Some err)
  | Ok page :: later =>
      let collected := f collected page in
      if nonEmpty (nextPageToken page) then Pages nextPageToken f later collected
      else Some (collected, None)
  end.

(** [compute.InstanceAggregatedList]: [Items] is a Go map from zone key to
    the instances of the zone; the list gives its entries in the order the
    [range] loop takes them. *)
Record InstanceAggregatedList := mkInstanceAggregatedList {
  AggregatedItems : list (string * list ComputeInstance);
  AggregatedNextPageToken : string
}.

(** One zone of a page: the test that skips a zone without instances, then
    the loop over the instances of the zone. *)
Definition listZone (projectID : string) (instances : list Instance)
    (zone : string * list ComputeInstance) : list Instance :=
  let '(zoneKey, zoneInstances) := zone in
  if length zoneInstances =? 0 then instances
  else foldl (fun instances instance =>
                instances ++ [summarizeInstance projectID zoneKey instance])
             instances zoneInstances.

(** The closure passed to [Pages]. *)
Definition listPage (projectID : string) (instances : list Instance)
    (page : InstanceAggregatedList) : list Instance :=
  foldl (listZone projectID) instances (AggregatedItems page).

(** [ListInstances]. *)
Definition ListInstances (projectID : string)
    (fetches : list (Result InstanceAggregatedList)) : option (Result (list Instance)) :=
  match Pages AggregatedNextPageToken (listPage projectID) fetches [] with
  | None => None
  | Some (_, Some err) => Some (Err ("failed to list instances: " +:+ err))
  | Some (instances, None) => Some (Ok instances)
  end.

Module projects.

(** [cloudresourcemanager.Project], the fields read. *)
Record CrmProject := mkCrmProject {
  ProjectId : string;
  CrmName : string
}.

Record ListProjectsResponse := mkListProjectsResponse {
  Projects : list CrmProject;
  NextPageToken : string
}.

(** [api.Project] (projects.go). *)
Record Project := mkProject {
  ID : string;
  Name : string
}.

Definition listPage (projects : list Project) (page : ListProjectsResponse)
  : list Project :=
  foldl (fun projects project =>
           projects ++ [{| ID := ProjectId project; Name := CrmName project |}])
        projects (Projects page).

(** [ListProjects]. *)
Definition ListProjects (fetches : list (Result ListProjectsResponse))
  : option (Result (list Project)) :=
  match Pages NextPageToken listPage fetches [] with
  | None => None
  | Some (_, Some err) => Some (Err ("failed to list projects: " +:+ err))
  | Some (projects, None) => Some (Ok projects)
  end.

End projects.

(** ** Instance lifecycle and license metadata (instances.go) *)

(** [compute.MetadataItems]; [Value] is a [*string]. *)
Record MetadataItem := mkMetadataItem {
  Key : string;
  Value : option string
}.

(** [compute.Metadata]. *)
Record Metadata := mkMetadata {
  Fingerprint : string;
  Items : list MetadataItem
}.

(** The answers to the calls of [StartInstance], [StopInstance] and
    [ReplaceLicense].  [GetAnswer] is [Instances.Get] again, with the
    instance's [Metadata], which is taken to be present. *)
Record Lifecycle := mkLifecycle {
  StartAnswer : string -> string -> string -> Result Operation;
  StopAnswer : string -> string -> string -> Result Operation;
  GetAnswer : string -> string -> string -> Result (ComputeInstance * Metadata);
  SetMetadataAnswer : string -> string -> string -> Metadata -> Result Operation
}.

Inductive AdminLine :=
| LineOperationInProgress (opName : string)
| LineRecreateNote
| LineLimitedNote
| LineAlternativeNote
| LineMetadataAdded
| LineMetadataOnlyNote.

(** What these functions do that can be seen from outside: the lines they
    print and the calls they issue. *)
Inductive AdminEvent :=
| Shown (line : AdminLine)
| StartCall (project zone name : string)
| StopCall (project zone name : string)
| SetMetadataCall (project zone name : string) (metadata : Metadata).

(** [StartInstance]. *)
Definition StartInstance (instance : Instance) (lc : Lifecycle)
  : list AdminEvent * option error :=
  let call := StartCall (Project instance) (Zone instance) (Name instance) in
  match StartAnswer lc (Project instance) (Zone instance) (Name instance) with
  | Err err => ([call], Some ("failed to start instance: " +:+ err))
  | Ok op => ([call; Shown (LineOperationInProgress (OpName op))], None)
  end.

(** [StopInstance]. *)
Definition StopInstance (instance : Instance) (lc : Lifecycle)
  : list AdminEvent * option error :=
  let call := StopCall (Project instance) (Zone instance) (Name instance) in
  match StopAnswer lc (Project instance) (Zone instance) (Name instance) with
  | Err err => ([call], Some ("failed to stop instance: " +:+ err))
  | Ok op => ([call; Shown (LineOperationInProgress (OpName op))], None)
  end.

(** The loop of [ReplaceLicense] over [items]: the first item whose key is
    license gets the new value and the loop breaks; [None] when
    [licenseFound] stays false. *)
Fixpoint setLicenseValue (items : list MetadataItem) (newLicenseURL : string)
  : option (list MetadataItem) :=
  match items with
  | [] => None
  | item :: rest =>
      if String.eqb (Key item) "license" then
        Some ({| Key := Key item; Value := Some newLicenseURL |} :: rest)
      else
        match setLicenseValue rest newLicenseURL with
        | Some rest' => Some (item :: rest')
        | None => None
        end
  end.

(** The items after the loop and the [append] that follows it when no item
    was found. *)
Definition upsertLicense (items : list MetadataItem) (newLicenseURL : string)
  : list MetadataItem :=
  match setLicenseValue items newLicenseURL with
  | Some items' => items'
  | None => items ++ [{| Key := "license"; Value := Some newLicenseURL |}]
  end.

(** [ReplaceLicense]. *)
Definition ReplaceLicense (instance : Instance) (newLicenseURL : string) (lc : Lifecycle)
  : list AdminEvent * option error :=
  match GetAnswer lc (Project instance) (Zone instance) (Name instance) with
  | Err err => ([], Some ("failed to get instance details: " +:+ err))
  | Ok (instanceObj, metadata) =>
      if length (Disks instanceObj) =? 0 then ([], Some "instance has no disks")
      else
        let notes := [Shown LineRecreateNote; Shown LineLimitedNote;
                      Shown LineAlternativeNote] in
        let fingerprint := Fingerprint metadata in
        let items := upsertLicense (Items metadata) newLicenseURL in
        let newMetadata := {| Fingerprint := fingerprint; Items := items |} in
        let call := SetMetadataCall (Project instance) (Zone instance) (Name instance)
                      newMetadata in
        match SetMetadataAnswer lc (Project instance) (Zone instance) (Name instance)
                newMetadata with
        | Err err => (notes ++ [call], Some ("failed to set license metadata: " +:+ err))
        | Ok op =>
            (notes ++ [call; Shown LineMetadataAdded;
                       Shown (LineOperationInProgress (OpName op));
                       Shown LineMetadataOnlyNote], None)
        end
  end.

(** ** Console menu (management.go) *)

(** The two library functions the menu applies to what the operator types:
    [strings.TrimSpace] and [strconv.Atoi] ([None]: its error, whose text
    the code never uses). *)
Class Runtime := {
  TrimSpace : string -> string;
  Atoi : string -> option Z
}.

(** Standard input as the code sees it: the answers of the successive
    [reader.ReadString] calls, a line or an error each. *)
Definition Stdin := list (Result string).

(** The errors [SelectInstance] returns, by the [fmt.Errorf] that makes
    them. *)
Inductive SelectError :=
| ReadFailed (err : error)
| InvalidInput (input : string)
| InvalidChoice (choice : Z).

(** What [SelectInstance] returns: a pointer to an instance of the slice,
    [nil, nil], or an error; [OutOfRange] stands for the panic of indexing
    the slice outside its bounds. *)
Inductive Selection :=
| Selected (instance : Instance)
| NoSelection
| Refused (why : SelectError)
| OutOfRange.

Inductive MenuLine :=
| LineSelectHeader
| LineInstanceOption (number : nat) (name zone status : string)
| LineSelectPrompt
| LineMenu
| LineChoicePrompt
| LineReadError (err : error)
| LineEnterNumber
| LineInvalidChoice
| LineRefreshing
| LineSelectError (why : SelectError)
| LineError (err : error)
| LineStarting (name : string)
| LineStartInitiated
| LineStopping (name : string)
| LineStopInitiated
| LineNothingToExport
| LineExportError (err : error)
| LineExported (projectID : string)
| LineMassMover
| LineFoundToConvert (count : nat)
| LineToConvert (zone name codes status : string)
| LineConfirmPrompt
| LineCancelled
| LineConverting
| LineVerifyingChanges
| LineResultsHeader
| LineResult (ok : bool) (name zone : string)
| LineBefore (originalOS : string)
| LineAfter (newOS : string)
| LineConverted (successful total : nat)
| LinePressEnter.

(** What the menu does that can be seen from outside. *)
Inductive MenuEvent :=
| Menu (line : MenuLine)
| Admin (event : AdminEvent)
| Engine (event : Event).

Section Console.
Context {runtime : Runtime} {yaml : Yaml} {os : Os}.

(** [SelectInstance]: the selection, what was printed, and the input left. *)
Definition SelectInstance (instances : list Instance) (stdin : Stdin)
  : option (Selection * list MenuEvent * Stdin) :=
  let shown :=
    Menu LineSelectHeader
    :: imap (fun i instance =>
               Menu (LineInstanceOption (i + 1) (Name instance) (Zone instance)
                       (Status instance))) instances
    ++ [Menu LineSelectPrompt] in
  match stdin with
  | [] => None
  | Err err :: stdin => Some (Refused (ReadFailed err), shown, stdin)
  | Ok input :: stdin =>
      let input := TrimSpace input in
      match Atoi input with
      | None => Some (Refused (InvalidInput input), shown, stdin)
      | Some choice =>
          if (choice =? 0)%Z then Some (NoSelection, shown, stdin)
          else if (choice <? 1)%Z || (Z.of_nat (length instances) <? choice)%Z then
            Some (Refused (InvalidChoice choice), shown, stdin)
          else
            match instances !! Z.to_nat (choice - 1) with
            | Some instance => Some (Selected instance, shown, stdin)
            | None => Some (OutOfRange, shown, stdin)
            end
      end
  end.

(** [handleStartInstance]: what happened and the input left; no result
    when the answers run out or the selection panics. *)
Definition handleStartInstance (instances : list Instance) (lc : Lifecycle)
    (stdin : Stdin) : option (list MenuEvent * Stdin) :=
  match SelectInstance instances stdin with
  | None => None
  | Some (Refused why, shown, stdin) => Some (shown ++ [Menu (LineSelectError why)], stdin)
  | Some (NoSelection, shown, stdin) => Some (shown, stdin)
  | Some (OutOfRange, _, _) => None
  | Some (Selected instance, shown, stdin) =>
      let '(events, err) := StartInstance instance lc in
      Some (shown ++ [Menu (LineStarting (Name instance))] ++ (Admin <$> events)
            ++ [Menu (match err with
                      | Some err => LineError err
                      | None => LineStartInitiated
                      end)], stdin)
  end.

(** [handleStopInstance]. *)
Definition handleStopInstance (instances : list Instance) (lc : Lifecycle)
    (stdin : Stdin) : option (list MenuEvent * Stdin) :=
  match SelectInstance instances stdin with
  | None => None
  | Some (Refused why, shown, stdin) => Some (shown ++ [Menu (LineSelectError why)], stdin)
  | Some (NoSelection, shown, stdin) => Some (shown, stdin)
  | Some (OutOfRange, _, _) => None
  | Some (Selected instance, shown, stdin) =>
      let '(events, err) := StopInstance instance lc in
      Some (shown ++ [Menu (LineStopping (Name instance))] ++ (Admin <$> events)
            ++ [Menu (match err with
                      | Some err => LineError err
                      | None => LineStopInitiated
                      end)], stdin)
  end.

(** [handleExportInstances]: what is printed and the directory afterwards. *)
Definition handleExportInstances (instances : list Instance) (projectID : string)
    (fs : FileSystem) : list MenuEvent * FileSystem :=
  if length instances =? 0 then ([Menu LineNothingToExport], fs)
  else
    match ExportInstancesToYAML instances projectID fs with
    | (fs, Some err) => ([Menu (LineExportError err)], fs)
    | (fs, None) => ([Menu (LineExported projectID)], fs)
    end.

(** The lines of the results table, one block per conversion. *)
Definition resultLines (verifiedConversions : list PAYGConversion) : list MenuEvent :=
  conversion ← verifiedConversions;
  [Menu (LineResult (Success conversion) (Name (ConvInstance conversion))
           (Zone (ConvInstance conversion)));
   Menu (LineBefore (OriginalOS conversion));
   Menu (LineAfter (NewOS conversion))].

(** The counter [successful] of the results loop. *)
Definition countSuccessful (verifiedConversions : list PAYGConversion) : nat :=
  foldl (fun successful conversion =>
           if Success conversion then successful + 1 else successful)
        0 verifiedConversions.

(** [handleBYOStoPAYG]: the matcher, the confirmation, then the conversion
    batch, the verification pass and the results table; the last read, for
    the closing prompt, ignores what it gets. *)
Definition handleBYOStoPAYG (instances : list Instance) (during after : ComputeService)
    (projectID : string) (fs : FileSystem) (stdin : Stdin)
  : option (list MenuEvent * Stdin) :=
  let header := [Menu LineMassMover] in
  match CheckInstancesFromFile projectID instances fs with
  | (Err err, printed) => Some (header ++ (Engine <$> printed) ++ [Menu (LineError err)], stdin)
  | (Ok matchedInstances, printed) =>
      let listed :=
        header ++ (Engine <$> printed)
        ++ [Menu (LineFoundToConvert (length matchedInstances))]
        ++ ((fun instance =>
               Menu (LineToConvert (Zone instance) (Name instance)
                       (strings.Join (LicenseCodes instance) ", ") (Status instance)))
              <$> matchedInstances)
        ++ [Menu LineConfirmPrompt] in
      match stdin with
      | [] => None
      | Err err :: stdin => Some (listed ++ [Menu (LineReadError err)], stdin)
      | Ok input :: stdin =>
          let input := TrimSpace input in
          if negb (String.eqb (strings.ToLower input) "y") then
            Some (listed ++ [Menu LineCancelled], stdin)
          else
            let converted := ConvertToPAYG matchedInstances during in
            let verified := VerifyConversion (results converted) after in
            let verifiedConversions := results verified in
            let events :=
              listed ++ [Menu LineConverting] ++ (Engine <$> trace converted)
              ++ [Menu LineVerifyingChanges] ++ (Engine <$> trace verified)
              ++ [Menu LineResultsHeader] ++ resultLines verifiedConversions
              ++ [Menu (LineConverted (countSuccessful verifiedConversions)
                          (length verifiedConversions));
                  Menu LinePressEnter] in
            match stdin with
            | [] => None
            | _ :: stdin => Some (events, stdin)
            end
      end
  end.

(** [ManageInstances]: whether a refresh is needed, what happened, the
    directory and the input left.  Every turn of the loop that does not
    return has read one answer, so the loop runs over the answers; [None]
    when they run out before the menu is left. *)
Fixpoint ManageInstances (instances : list Instance) (lc : Lifecycle)
    (during after : ComputeService) (projectID : string) (fs : FileSystem)
    (stdin : Stdin) : option (bool * list MenuEvent * FileSystem * Stdin) :=
  let shown := [Menu LineMenu; Menu LineChoicePrompt] in
  let continue events fs stdin :=
    match ManageInstances instances lc during after projectID fs stdin with
    | Some (refresh, later, fs, stdin) => Some (refresh, shown ++ events ++ later, fs, stdin)
    | None => None
    end in
  match stdin with
  | [] => None
  | Err err :: stdin => continue [Menu (LineReadError err)] fs stdin
  | Ok input :: stdin =>
      match Atoi (TrimSpace input) with
      | None => continue [Menu LineEnterNumber] fs stdin
      | Some choice =>
          match choice with
          | 0%Z => Some (false, shown, fs, stdin)
          | 1%Z =>
              match handleStartInstance instances lc stdin with
              | Some (events, stdin) => Some (true, shown ++ events, fs, stdin)
              | None => None
              end
          | 2%Z =>
              match handleStopInstance instances lc stdin with
              | Some (events, stdin) => Some (true, shown ++ events, fs, stdin)
              | None => None
              end
          | 3%Z =>
              match handleBYOStoPAYG instances during after projectID fs stdin with
              | Some (events, stdin) => Some (true, shown ++ events, fs, stdin)
              | None => None
              end
          | 4%Z => Some (true, shown ++ [Menu LineRefreshing], fs, stdin)
          | 5%Z =>
              let '(events, fs) := handleExportInstances instances projectID fs in
              continue events fs stdin
          | _ => continue [Menu LineInvalidChoice] fs stdin
          end
      end
  end.

End Console.

(** * Vocabulary of the properties *)

(** The record exported for an instance, field by field. *)
Definition exportedAs (record : InstanceExport) (instance : Instance) : Prop :=
  ExportName record = Name instance /\
  ExportZone record = Zone instance /\
  ExportMachineType record = MachineType instance /\
  ExportStatus record = Status instance /\
  ExportLicenses record = LicenseCodes instance.

(** The identifier the catalog derives from one license URL. *)
Definition catalogCode (license : string) : string :=
  let parts := strings.Split strings.slash license in
  if 6 <=? length parts then fromEnd parts 4 +:+ ":" +:+ fromEnd parts 1
  else path.Base license.

(** The lines every iteration of the conversion loop prints first. *)
Definition statusLines (instance : Instance) : list Event :=
  Printf (LogInstanceStatus (Name instance) (Status instance))
  :: (if isRunning instance then [] else [Printf LogNotRunningNote]).

(** The conversion record as the loop body creates it. *)
Definition freshConversion (instance : Instance) : PAYGConversion :=
  {| ConvInstance := instance;
     OriginalOS := strings.Join (LicenseCodes instance) ", ";
     ConversionURL := ""; Success := false; NewOS := "" |}.

(** What one iteration adds, seen from an empty run. *)
Definition outcome (b : Backend) (instance : Instance) : RunState :=
  convertInstance b instance emptyRun.

(** The records of the iterations [i], [i+1], ... over [instances]. *)
Fixpoint recordsFrom (svc : ComputeService) (i : nat) (instances : list Instance)
  : list PAYGConversion :=
  match instances with
  | [] => []
  | instance :: rest => results (outcome (svc i) instance) ++ recordsFrom svc (S i) rest
  end.

Fixpoint eventsFrom (svc : ComputeService) (i : nat) (instances : list Instance)
  : list Event :=
  match instances with
  | [] => []
  | instance :: rest => trace (outcome (svc i) instance) ++ eventsFrom svc (S i) rest
  end.

(** Whether the iteration for [instance] gets as far as a patch response in
    the 2xx range whose body decodes to an operation with a name: the
    condition under which line 245 is reached. *)
Definition namesOperation (b : Backend) (instance : Instance) : bool :=
  match InstancesGet b (Project instance) (Zone instance) (Name instance) with
  | Err _ => false
  | Ok instanceObj =>
      match Disks instanceObj with
      | [] => false
      | bootDisk :: _ =>
          let diskName := diskNameOf bootDisk in
          nonEmpty diskName &&
          match choosePaygLicense b instance diskName with
          | (None, _) => false
          | (Some paygLicense, _) =>
              let apiURL := patchURL instance diskName in
              let requestBody := patchBody diskName paygLicense in
              match NewRequest b "PATCH" apiURL requestBody, DefaultClient b,
                    ClientDo b apiURL requestBody with
              | None, None, Ok resp =>
                  (200 <=? StatusCode resp)%Z && (StatusCode resp <? 300)%Z &&
                  match DecodeOperation b (Body resp) with
                  | Ok operation => nonEmpty (OpName operation)
                  | Err _ => false
                  end
              | _, _, _ => false
              end
          end
      end
  end.

(** The number of iterations over [instances], from iteration [i] on, that
    name an operation. *)
Fixpoint namedOperations (svc : ComputeService) (i : nat) (instances : list Instance)
  : nat :=
  match instances with
  | [] => 0
  | instance :: rest =>
      (if namesOperation (svc i) instance then 1 else 0) + namedOperations svc (S i) rest
  end.

(** What verification may make of a record: nothing, or, for a successful
    one, a new [NewOS]. *)
Definition verifiedFrom (before after : PAYGConversion) : Prop :=
  after = before \/ (Success before = true /\ exists newOS, after = setNewOS newOS before).

(** The live instance a key resolves to: the last one in the list that
    carries the key. *)
Definition liveFor (instances : list Instance) (key : string) : option Instance :=
  last (filter (fun instance => instanceKey instance = key) instances).

Definition matchedOf (instances : list Instance) (fileInstances : list InstanceExport)
  : list Instance :=
  omap (fun fileInstance => liveFor instances (exportKey fileInstance)) fileInstances.

Definition missingOf (instances : list Instance) (fileInstances : list InstanceExport)
  : list string :=
  omap (fun fileInstance =>
          match liveFor instances (exportKey fileInstance) with
          | Some _ => None
          | None => Some (exportKey fileInstance)
          end) fileInstances.

Fixpoint slashFree (s : string) : bool :=
  match s with
  | EmptyString => true
  | String c rest => negb (Ascii.eqb c strings.slash) && slashFree rest
  end.

(** Whether the iteration for [instance] gets as far as a patch response in
    the 2xx range: the condition under which line 249 is reached. *)
Definition patchAccepted (b : Backend) (instance : Instance) : bool :=
  match InstancesGet b (Project instance) (Zone instance) (Name instance) with
  | Err _ => false
  | Ok instanceObj =>
      match Disks instanceObj with
      | [] => false
      | bootDisk :: _ =>
          let diskName := diskNameOf bootDisk in
          nonEmpty diskName &&
          match choosePaygLicense b instance diskName with
          | (None, _) => false
          | (Some paygLicense, _) =>
              let apiURL := patchURL instance diskName in
              let requestBody := patchBody diskName paygLicense in
              match NewRequest b "PATCH" apiURL requestBody, DefaultClient b,
                    ClientDo b apiURL requestBody with
              | None, None, Ok resp =>
                  (200 <=? StatusCode resp)%Z && (StatusCode resp <? 300)%Z
              | _, _, _ => false
              end
          end
      end
  end.

(** The provisional post-state the engine writes on success. *)
Definition provisionalNewOS (instance : Instance) (paygLicense : string) : string :=
  if isRunning instance then "PAYG: Converting to " +:+ paygLicense
  else "PAYG license applied to disk (VM status: " +:+ Status instance +:+ ")".

(** The disk an iteration works on: the last [/]-separated segment of the
    [Source] of the first disk of the instance as the iteration fetched it;
    none when the fetch fails, the instance has no disk, or that segment is
    empty. *)
Definition bootDiskName (b : Backend) (instance : Instance) : option string :=
  match InstancesGet b (Project instance) (Zone instance) (Name instance) with
  | Err _ => None
  | Ok instanceObj =>
      match Disks instanceObj with
      | [] => None
      | bootDisk :: _ =>
          match last (strings.Split strings.slash (Source bootDisk)) with
          | Some diskName => if String.eqb diskName "" then None else Some diskName
          | None => None
          end
      end
  end.

(** The licenses path of a disk of the instance's project and zone in the
    alpha API, and the JSON body that names the disk and one license. *)
Definition licensesEndpoint (instance : Instance) (diskName : string) : string :=
  "https://www.googleapis.com/compute/alpha/projects/" +:+ Project instance
  +:+ "/zones/" +:+ Zone instance +:+ "/disks/" +:+ diskName +:+ "?paths=licenses".

Definition licensesPatch (diskName license : string) : string :=
  "{" +:+ dquote +:+ "name" +:+ dquote +:+ ":" +:+ dquote +:+ diskName +:+ dquote
  +:+ ", " +:+ dquote +:+ "licenses" +:+ dquote +:+ ":[" +:+ dquote +:+ license
  +:+ dquote +:+ "]}".

(** The target license of an iteration, when it has a disk to work on and
    the classification chooses one. *)
Definition patchTarget (b : Backend) (instance : Instance) : option (string * string) :=
  diskName ← bootDiskName b instance;
  paygLicense ← (choosePaygLicense b instance diskName).1;
  Some (diskName, paygLicense).

(** The one call of [client.Do] an iteration makes, if any: the URL and the
    body of the request it is given. *)
Definition patchCall (b : Backend) (instance : Instance) : option (string * string) :=
  '(diskName, paygLicense) ← patchTarget b instance;
  let url := licensesEndpoint instance diskName in
  let body := licensesPatch diskName paygLicense in
  match NewRequest b "PATCH" url body, DefaultClient b with
  | None, None => Some (url, body)
  | _, _ => None
  end.

(** What the record of the iteration for [instance] looks like. *)
Definition recordOf (b : Backend) (instance : Instance) (record : PAYGConversion) : Prop :=
  ConvInstance record = instance /\
  OriginalOS record = strings.Join (LicenseCodes instance) ", " /\
  ConversionURL record
  = match patchTarget b instance with
    | Some (diskName, _) => licensesEndpoint instance diskName
    | None => ""
    end /\
  (Success record = false -> NewOS record = "") /\
  (Success record = true ->
     exists diskName paygLicense,
       patchTarget b instance = Some (diskName, paygLicense) /\
       (paygLicense = rhel8Server \/ paygLicense = rhel9Server) /\
       NewOS record = provisionalNewOS instance paygLicense /\
       patchCall b instance
       = Some (licensesEndpoint instance diskName, licensesPatch diskName paygLicense)).

(** The post-state verification writes for an instance whose disk was
    re-fetched. *)
Definition verifiedNewOS (instance : Instance) (disk : Disk) : string :=
  let licenseCodes := verifierLicenseCodes (Licenses disk) in
  if 0 <? length licenseCodes then strings.Join licenseCodes ", "
  else if isRunning instance then "License change may be pending"
  else "License changed, but VM needs to be started to verify".

(** The instances a trace says were verified, by name and status. *)
Definition verifyingLines (events : list Event) : list (string * string) :=
  omap (fun e => match e with
                 | Printf (LogVerifying name status) => Some (name, status)
                 | _ => None
                 end) events.

(** The verification loop over the indices [indices]. *)
Definition verifyOver (svc : ComputeService) (indices : list nat) (st : RunState)
  : RunState :=
  foldl (fun st i => verifyConversionAt (svc i) i st) st indices.

(** The form of a license URL the catalog's comment documents:
    https://www.googleapis.com/compute/v1/projects/PROJECT/global/licenses/LICENSE. *)
Definition licenseURL (project licenseName : string) : string :=
  "https://www.googleapis.com/compute/v1/projects/" +:+ project
  +:+ "/global/licenses/" +:+ licenseName.

(** Whether one license identifier, lowercased, carries a marker. *)
Definition carries (marker code : string) : bool :=
  strings.Contains (strings.ToLower code) marker.

Fixpoint spaceFree (s : string) : bool :=
  match s with
  | EmptyString => true
  | String c rest => negb (Ascii.eqb c " "%char) && spaceFree rest
  end.

(** The summaries of the instances of some pages, page by page, zone by
    zone. *)
Definition pageSummaries (projectID : string) (pages : list InstanceAggregatedList)
  : list Instance :=
  page ← pages;
  zone ← AggregatedItems page;
  summarizeInstance projectID zone.1 <$> zone.2.

(** The API instances of some pages with the keys of their zones, page by
    page, zone by zone. *)
Definition pageInstances (pages : list InstanceAggregatedList)
  : list (string * ComputeInstance) :=
  page ← pages;
  zone ← AggregatedItems page;
  pair zone.1 <$> zone.2.

(** The license identifier that belongs to a license URL: the 4th-from-last
    and the last [/]-separated segment, joined by a colon, when the URL has
    six segments or more; the base name of the URL otherwise. *)
Definition identifierOf (url code : string) : Prop :=
  let parts := strings.Split strings.slash url in
  (6 <= length parts ->
     exists project licenseName,
       reverse parts !! 3 = Some project /\
       last parts = Some licenseName /\
       code = project +:+ ":" +:+ licenseName) /\
  (length parts < 6 -> code = path.Base url).

(** The license identifiers of a catalogued instance against the API
    instance it was made from: one for each license URL of the boot disk,
    the first disk, in order; none when the instance has no disk. *)
Definition cataloguedLicenses (api : ComputeInstance) (listed : Instance) : Prop :=
  match Disks api with
  | bootDisk :: _ => Forall2 identifierOf (AttachedLicenses bootDisk) (LicenseCodes listed)
  | [] => LicenseCodes listed = []
  end.

(** Pages that each name a next page. *)
Definition allContinue {P : Type} (nextPageToken : P -> string) (pages : list P) : Prop :=
  Forall (fun page => nonEmpty (nextPageToken page) = true) pages.

(** The metadata a trace says was written. *)
Definition metadataWrites (events : list AdminEvent) : list Metadata :=
  omap (fun e => match e with
                 | SetMetadataCall _ _ _ metadata => Some metadata
                 | _ => None
                 end) events.

Definition isLicenseItem (item : MetadataItem) : bool := String.eqb (Key item) "license".

(** The start and stop calls a menu trace holds, in order. *)
Definition lifecycleCalls (events : list MenuEvent) : list AdminEvent :=
  omap (fun e => match e with
                 | Admin (StartCall project zone name) => Some (StartCall project zone name)
                 | Admin (StopCall project zone name) => Some (StopCall project zone name)
                 | _ => None
                 end) events.

(** The events of the engine and the verifier a menu trace holds. *)
Definition engineEvents (events : list MenuEvent) : list Event :=
  omap (fun e => match e with Engine event => Some event | _ => None end) events.

(** The summary lines "Converted X/Y" a menu trace holds. *)
Definition summaryLines (events : list MenuEvent) : list (nat * nat) :=
  omap (fun e => match e with
                 | Menu (LineConverted successful total) => Some (successful, total)
                 | _ => None
                 end) events.

(** An answer that does not leave the menu: a read error, a line that is
    not a number, or a number that is no menu entry. *)
Definition staysInMenu `{Runtime} (answer : Result string) : Prop :=
  match answer with
  | Err _ => True
  | Ok input =>
      match Atoi (TrimSpace input) with
      | None => True
      | Some choice => (choice < 0 \/ 5 < choice)%Z
      end
  end.

(** * Sample data *)

Definition sampleInstance (name status : string) (codes : list string) : Instance :=
  {| Name := name; Zone := "us-central1-a"; MachineType := "e2-medium";
     Status := status; IP := "10.0.0.2"; LicenseCodes := codes;
     DiskType := "SCSI-PERSISTENT"; DiskSizeGB := 20; Project := "demo" |}.

Definition sampleBootDisk : AttachedDisk :=
  {| Source := "https://www.googleapis.com/compute/v1/projects/demo/zones/us-central1-a/disks/boot-1";
     AttachedType := "PERSISTENT"; Interface := "SCSI"; DiskSizeGb := 20;
     AttachedLicenses := [] |}.

(** A backend that answers every call, and accepts the patch with a named
    operation. *)
Definition healthyBackend : Backend :=
  {| InstancesGet := fun _ _ name =>
       Ok {| ApiName := name; ApiStatus := "RUNNING"; ApiMachineType := "e2-medium";
             NetworkInterfaces := []; Disks := [sampleBootDisk] |};
     DisksGet := fun _ _ _ =>
       Ok {| SourceImage := "projects/rhel-cloud/global/images/rhel-9-v20240515";
             Licenses := [rhel9Server] |};
     NewRequest := fun _ _ _ => None;
     DefaultClient := None;
     ClientDo := fun _ _ =>
       Ok {| StatusCode := 200; RespStatus := "200 OK"; Body := "operation-1" |};
     DecodeOperation := fun body =>
       Ok {| OpName := body; OpStatus := "RUNNING"; OpZone := "us-central1-a" |} |}.

(** A backend whose every call fails. *)
Definition failingBackend : Backend :=
  {| InstancesGet := fun _ _ _ => Err "unavailable";
     DisksGet := fun _ _ _ => Err "unavailable";
     NewRequest := fun _ _ _ => None;
     DefaultClient := Some "no credentials";
     ClientDo := fun _ _ => Err "unavailable";
     DecodeOperation := fun _ => Err "unexpected end of JSON input" |}.

Definition slashInstance : Instance :=
  {| Name := "c"; Zone := "a/b"; MachineType := "e2-medium"; Status := "RUNNING";
     IP := ""; LicenseCodes := []; DiskType := ""; DiskSizeGB := 0; Project := "demo" |}.

Definition slashRecord : InstanceExport :=
  {| ExportName := "b/c"; ExportZone := "a"; ExportMachineType := "e2-medium";
     ExportStatus := "RUNNING"; ExportLicenses := [] |}.

Definition fileOf (projectID : string) (records : list InstanceExport)
  : gmap string (@document parsedYaml) :=
  {[ exportFilename projectID := records ]}.

(** An operating system that performs every write, one that refuses them
    all, and one where the export file of project demo is on a full disk. *)
Definition writableOs : @Os parsedYaml :=
  {| writeOutcome := fun _ _ => Written |}.

Definition readOnlyOs : @Os parsedYaml :=
  {| writeOutcome := fun _ _ => NotWritten "permission denied" |}.

Definition fullDiskOs : @Os parsedYaml :=
  Build_Os parsedYaml
    (fun filename (data : list InstanceExport) =>
       if String.eqb filename "demo-instances.yml"
       then PartlyWritten "no space left on device" (take 1 data)
       else Written).

(** A conversion record as the engine leaves it, for the verifier. *)
Definition sampleRecord (name status : string) (ok : bool) : PAYGConversion :=
  {| ConvInstance := sampleInstance name status ["rhel-byos-cloud:rhel-9-byos"];
     OriginalOS := "rhel-byos-cloud:rhel-9-byos";
     ConversionURL := if ok then patchURL (sampleInstance name status []) "boot-1" else "";
     Success := ok;
     NewOS := if ok then "PAYG: Converting to " +:+ rhel9Server else "" |}.

Definition sampleApiInstance (name : string) : ComputeInstance :=
  {| ApiName := name; ApiStatus := "RUNNING";
     ApiMachineType :=
       "https://www.googleapis.com/compute/v1/projects/demo/zones/us-central1-a/machineTypes/e2-medium";
     NetworkInterfaces := [{| AccessConfigs := [{| NatIP := "203.0.113.7" |}] |}];
     Disks := [{| Source := Source sampleBootDisk; AttachedType := "PERSISTENT";
                  Interface := "SCSI"; DiskSizeGb := 20;
                  AttachedLicenses := [licenseURL "rhel-cloud" "rhel-9-byos"] |}] |}.

(** An API instance with two disks: the boot disk carries a full license
    URL and a short one, the data disk another license. *)
Definition twoDiskInstance : ComputeInstance :=
  {| ApiName := "vm-1"; ApiStatus := "RUNNING"; ApiMachineType := "e2-medium";
     NetworkInterfaces := [];
     Disks :=
       [{| Source := Source sampleBootDisk; AttachedType := "PERSISTENT";
           Interface := "SCSI"; DiskSizeGb := 20;
           AttachedLicenses :=
             ["https://www.googleapis.com/compute/v1/projects/rhel-cloud/global/licenses/rhel-8-server";
              "licenses/rhel-byos"] |};
        {| Source := "projects/demo/zones/us-central1-a/disks/data-2";
           AttachedType := "PERSISTENT"; Interface := "SCSI"; DiskSizeGb := 100;
           AttachedLicenses := [licenseURL "debian-cloud" "debian-12"] |}] |}.

Definition samplePage (zoneKey : string) (names : list string) (token : string)
  : InstanceAggregatedList :=
  {| AggregatedItems := [("zones/empty", []); (zoneKey, sampleApiInstance <$> names)];
     AggregatedNextPageToken := token |}.

(** A runtime for the examples: white space is the six ASCII characters, a
    number is an optional sign and decimal digits. *)
Definition isAsciiSpace (c : ascii) : bool :=
  let n := nat_of_ascii c in ((9 <=? n) && (n <=? 13)) || (n =? 32).

Fixpoint dropSpaces (chars : list ascii) : list ascii :=
  match chars with
  | c :: rest => if isAsciiSpace c then dropSpaces rest else chars
  | [] => []
  end.

Fixpoint decimal (digits : list ascii) (value : Z) : option Z :=
  match digits with
  | [] => Some value
  | c :: rest =>
      let n := nat_of_ascii c in
      if (48 <=? n) && (n <=? 57) then decimal rest (value * 10 + Z.of_nat (n - 48))
      else None
  end.

Definition sampleRuntime : Runtime :=
  {| TrimSpace := fun s =>
       String.string_of_list_ascii
         (rev (dropSpaces (rev (dropSpaces (String.list_ascii_of_string s)))));
     Atoi := fun s =>
       match String.list_ascii_of_string s with
       | [] => None
       | c :: rest =>
           if Ascii.eqb c "-" then
             match rest with [] => None | _ => Z.opp <$> decimal rest 0 end
           else if Ascii.eqb c "+" then
             match rest with [] => None | _ => decimal rest 0 end
           else decimal (c :: rest) 0
       end |}.

Definition sampleLifecycle : Lifecycle :=
  {| StartAnswer := fun _ _ name =>
       Ok {| OpName := "start-" +:+ name; OpStatus := "RUNNING"; OpZone := "" |};
     StopAnswer := fun _ _ _ => Err "forbidden";
     GetAnswer := fun _ _ _ => Err "unavailable";
     SetMetadataAnswer := fun _ _ _ _ => Err "unavailable" |}.

(** * Properties *)

(** ** License identifiers (catalog and verifier) *)

Lemma catalogLicenseStep_code licenseCodes license :
  catalogLicenseStep licenseCodes license = licenseCodes ++ [catalogCode license].
Proof.
  unfold catalogLicenseStep, catalogCode.
  by destruct (6 <=? length (strings.Split strings.slash license)).
Qed.

Lemma foldl_catalogLicenseStep acc licenses :
  foldl catalogLicenseStep acc licenses = acc ++ (catalogCode <$> licenses).
Proof.
  revert acc. induction licenses as [|license licenses IH]; intros acc; simpl.
  - by rewrite app_nil_r.
  - by rewrite IH, catalogLicenseStep_code, <- app_assoc.
Qed.

Lemma catalogLicenseCodes_fmap licenses :
  catalogLicenseCodes licenses = catalogCode <$> licenses.
Proof. apply foldl_catalogLicenseStep. Qed.

(** The identifiers of a catalogued instance are those of its first disk. *)
Lemma summarizeInstance_licenses projectID zoneKey instance bootDisk others :
  Disks instance = bootDisk :: others ->
  LicenseCodes (summarizeInstance projectID zoneKey instance)
  = catalogLicenseCodes (AttachedLicenses bootDisk).
Proof. intros Hdisks. unfold summarizeInstance. by rewrite Hdisks. Qed.

Lemma fromEnd_reverse parts k segment :
  reverse parts !! k = Some segment -> fromEnd parts (S k) = segment.
Proof.
  intros Hk. unfold fromEnd.
  assert (k < length parts) as Hlt.
  { apply lookup_lt_Some in Hk. by rewrite length_reverse in Hk. }
  rewrite reverse_lookup in Hk by done. by rewrite Hk.
Qed.

Lemma verifierLicenseStep_code licenseCodes license :
  verifierLicenseStep licenseCodes license
  = if 6 <=? length (strings.Split strings.slash license)
    then licenseCodes ++ [catalogCode license] else licenseCodes.
Proof.
  unfold verifierLicenseStep, catalogCode.
  by destruct (6 <=? length (strings.Split strings.slash license)).
Qed.

Lemma foldl_verifierLicenseStep acc licenses :
  foldl verifierLicenseStep acc licenses
  = acc ++ (catalogCode <$>
              filter (fun license => 6 <= length (strings.Split strings.slash license))
                     licenses).
Proof.
  revert acc. induction licenses as [|license licenses IH]; intros acc.
  - by rewrite app_nil_r.
  - cbn [foldl]. rewrite IH, verifierLicenseStep_code, filter_cons.
    destruct (Nat.leb_spec 6 (length (strings.Split strings.slash license)));
      case_decide; try lia; [|done].
    by rewrite <- app_assoc.
Qed.

(** The verifier keeps the identifiers of the URLs of six segments or more,
    and only those. *)
Lemma verifierLicenseCodes_filter licenses :
  verifierLicenseCodes licenses
  = catalogLicenseCodes
      (filter (fun license => 6 <= length (strings.Split strings.slash license)) licenses).
Proof.
  unfold verifierLicenseCodes. rewrite foldl_verifierLicenseStep.
  by rewrite catalogLicenseCodes_fmap.
Qed.

(** On URLs of six segments or more the two extractions agree. *)
Lemma verifierLicenseCodes_long_urls licenses :
  Forall (fun license => 6 <= length (strings.Split strings.slash license)) licenses ->
  verifierLicenseCodes licenses = catalogLicenseCodes licenses.
Proof.
  intros Hlong. rewrite verifierLicenseCodes_filter. f_equal.
  induction Hlong as [|license licenses Hl _ IH]; [done|].
  rewrite filter_cons. case_decide; [|done]. by rewrite IH.
Qed.

(** The identifier the catalog's loop derives follows the rule of
    [identifierOf]. *)
Lemma identifierOf_catalogCode url : identifierOf url (catalogCode url).
Proof.
  unfold identifierOf, catalogCode.
  set (parts := strings.Split strings.slash url). split.
  - intros Hlong.
    destruct (lookup_lt_is_Some_2 (reverse parts) 3) as [project Hp].
    { rewrite length_reverse. lia. }
    destruct (lookup_lt_is_Some_2 (reverse parts) 0) as [licenseName Hn].
    { rewrite length_reverse. lia. }
    exists project, licenseName. split; [done|]. split.
    + rewrite last_lookup. rewrite reverse_lookup in Hn by lia.
      rewrite <- Hn. f_equal. lia.
    + destruct (Nat.leb_spec 6 (length parts)); [|lia].
      by rewrite (fromEnd_reverse _ _ _ Hp), (fromEnd_reverse _ _ _ Hn).
  - intros Hshort. destruct (Nat.leb_spec 6 (length parts)); [lia|done].
Qed.

Lemma summarizeInstance_cataloguedLicenses projectID zoneKey api :
  ApiName api = Name (summarizeInstance projectID zoneKey api) /\
  cataloguedLicenses api (summarizeInstance projectID zoneKey api).
Proof.
  split.
  { unfold summarizeInstance.
    by destruct (match Disks api with
                 | [] => _
                 | bootDisk :: _ => _
                 end) as [[licenseCodes diskType] diskSizeGB]. }
  unfold cataloguedLicenses.
  destruct (Disks api) as [|bootDisk others] eqn:Hdisks.
  - unfold summarizeInstance. by rewrite Hdisks.
  - rewrite (summarizeInstance_licenses _ _ _ _ _ Hdisks), catalogLicenseCodes_fmap.
    apply Forall2_fmap_r, Forall_Forall2_diag, Forall_forall.
    intros url _. apply identifierOf_catalogCode.
Qed.

(** C5: on a license URL of fewer than six segments, here the partial URL
    of a license (five segments), the verifier's extraction produces
    nothing, where the catalog's produces the URL's base name: the two
    extractions differ. *)
Theorem verifier_drops_short_license_urls :
  verifierLicenseCodes ["projects/rhel-cloud/global/licenses/rhel-8-server"] = [] /\
  catalogLicenseCodes ["projects/rhel-cloud/global/licenses/rhel-8-server"]
  = ["rhel-8-server"].
Proof. split; reflexivity. Qed.

(** ** License classification *)

Lemma emit_emit events events' st :
  emit events' (emit events st) = emit (events ++ events') st.
Proof. unfold emit; simpl. by rewrite <- app_assoc. Qed.

Lemma emit_nil st : emit [] st = st.
Proof. destruct st. unfold emit; simpl. by rewrite app_nil_r. Qed.

(** Up to the classification step, an iteration whose instance fetch, disk
    list and disk name are fine has only printed the status lines. *)
Lemma convertInstance_reaches_switch b instance st instanceObj bootDisk others :
  InstancesGet b (Project instance) (Zone instance) (Name instance) = Ok instanceObj ->
  Disks instanceObj = bootDisk :: others ->
  nonEmpty (diskNameOf bootDisk) = true ->
  convertInstance b instance st
  = match choosePaygLicense b instance (diskNameOf bootDisk) with
    | (Some paygLicense, printed) =>
        patchDisk b instance (diskNameOf bootDisk) paygLicense (freshConversion instance)
          (emit (statusLines instance ++ printed) st)
    | (None, _) =>
        failed (freshConversion instance)
          (LogCouldNotDetermineLicense (Name instance)
             (strings.Join (LicenseCodes instance) ", "))
          (emit (statusLines instance) st)
    end.
Proof.
  intros Hget Hdisks Hname. unfold convertInstance, statusLines.
  rewrite Hget, Hdisks, Hname. fold (freshConversion instance).
  destruct (choosePaygLicense b instance (diskNameOf bootDisk)) as [[paygLicense|] printed];
    destruct (isRunning instance); by rewrite ?emit_emit.
Qed.

(** C10: when the lowercased, joined license identifiers contain both
    markers, the rhel-8 case of the switch is taken: the target is the
    rhel-8-server license URL, chosen without a disk lookup. *)
Theorem both_markers_select_rhel8 (b : Backend) (instance : Instance) (diskName : string) :
  strings.Contains (currentOSOf instance) "rhel-8" = true ->
  strings.Contains (currentOSOf instance) "rhel-9" = true ->
  choosePaygLicense b instance diskName = (Some rhel8Server, []).
Proof. intros H8 _. unfold choosePaygLicense. by rewrite H8. Qed.

(** C3: with an empty license-identifier list the switch never reaches its
    default case: whatever the disk lookup answers, the target is the
    rhel-8-server or the rhel-9-server license URL, and an iteration whose
    earlier steps succeeded goes on to the patch request with that target. *)
Theorem no_license_codes_resolves (b : Backend) (instance : Instance) (diskName : string) :
  LicenseCodes instance = [] ->
  exists paygLicense printed,
    choosePaygLicense b instance diskName = (Some paygLicense, printed) /\
    (paygLicense = rhel8Server \/ paygLicense = rhel9Server) /\
    forall st instanceObj bootDisk others,
      InstancesGet b (Project instance) (Zone instance) (Name instance) = Ok instanceObj ->
      Disks instanceObj = bootDisk :: others ->
      diskNameOf bootDisk = diskName ->
      nonEmpty diskName = true ->
      convertInstance b instance st
      = patchDisk b instance diskName paygLicense (freshConversion instance)
          (emit (statusLines instance ++ printed) st).
Proof.
  intros Hnone.
  assert (exists paygLicense printed,
    choosePaygLicense b instance diskName = (Some paygLicense, printed) /\
    (paygLicense = rhel8Server \/ paygLicense = rhel9Server)) as Hchoice.
  { unfold choosePaygLicense, currentOSOf. rewrite Hnone. cbn.
    destruct (DisksGet b (Project instance) (Zone instance) diskName) as [disk|err];
      [|by eauto 6].
    destruct (nonEmpty (SourceImage disk)
              && strings.Contains (strings.ToLower (SourceImage disk)) "rhel-8");
      by eauto 6. }
  destruct Hchoice as (paygLicense & printed & Hchoice & Htarget).
  exists paygLicense, printed. split; [done|]. split; [done|].
  intros st instanceObj bootDisk others Hget Hdisks <- Hname.
  by rewrite (convertInstance_reaches_switch _ _ _ _ _ _ Hget Hdisks Hname), Hchoice.
Qed.

(** The three outcomes of the fallback, by what the disk lookup answers. *)
Lemma no_license_codes_target (b : Backend) (instance : Instance) (diskName : string) :
  LicenseCodes instance = [] ->
  fst (choosePaygLicense b instance diskName)
  = match DisksGet b (Project instance) (Zone instance) diskName with
    | Err _ => Some rhel9Server
    | Ok disk =>
        if strings.Contains (strings.ToLower (SourceImage disk)) "rhel-8"
        then Some rhel8Server else Some rhel9Server
    end.
Proof.
  intros Hnone. unfold choosePaygLicense, currentOSOf. rewrite Hnone. cbn.
  destruct (DisksGet b (Project instance) (Zone instance) diskName) as [disk|err];
    [|done].
  destruct (SourceImage disk) as [|c image]; [done|].
  cbn [nonEmpty String.eqb negb andb].
  by destruct (strings.Contains (strings.ToLower (String c image)) "rhel-8").
Qed.

(** C2: a matched instance with license identifiers of which none carries
    the rhel-8 or the rhel-9 marker, whose fetch, disk list and disk name
    were fine, gets a Failed record with no target URL, the
    could-not-determine-license line is printed, and no patch request is
    sent. *)
Theorem unrecognized_license_fails (b : Backend) (instance : Instance) (st : RunState)
    (instanceObj : ComputeInstance) (bootDisk : AttachedDisk) (others : list AttachedDisk) :
  InstancesGet b (Project instance) (Zone instance) (Name instance) = Ok instanceObj ->
  Disks instanceObj = bootDisk :: others ->
  nonEmpty (diskNameOf bootDisk) = true ->
  LicenseCodes instance <> [] ->
  strings.Contains (currentOSOf instance) "rhel-8" = false ->
  strings.Contains (currentOSOf instance) "rhel-9" = false ->
  let after := convertInstance b instance st in
  results after
  = results st ++ [{| ConvInstance := instance;
                      OriginalOS := strings.Join (LicenseCodes instance) ", ";
                      ConversionURL := ""; Success := false; NewOS := "" |}] /\
  trace after
  = trace st ++ statusLines instance
      ++ [Printf (LogCouldNotDetermineLicense (Name instance)
                   (strings.Join (LicenseCodes instance) ", "))] /\
  patches (trace after) = patches (trace st).
Proof.
  intros Hget Hdisks Hname Hsome H8 H9 after. subst after.
  rewrite (convertInstance_reaches_switch _ _ _ _ _ _ Hget Hdisks Hname).
  unfold choosePaygLicense. rewrite H8, H9.
  destruct (LicenseCodes instance) as [|code codes] eqn:Hcodes; [done|].
  cbn [length Nat.eqb]. unfold failed, emit, appendResult, freshConversion, setSuccess.
  cbn [results trace ConvInstance OriginalOS ConversionURL Success NewOS].
  rewrite Hcodes, <- app_assoc. split; [done|]. split; [done|].
  unfold patches. rewrite !omap_app. cbn.
  unfold statusLines. destruct (isRunning instance); cbn; by rewrite app_nil_r.
Qed.

Lemma both_markers_select_rhel8_witness :
  choosePaygLicense healthyBackend
    (sampleInstance "vm-1" "RUNNING" ["rhel-byos-cloud:rhel-8-byos"; "rhel-byos-cloud:rhel-9-byos"])
    "boot-1"
  = (Some rhel8Server, []).
Proof. apply both_markers_select_rhel8; reflexivity. Defined.

Lemma no_license_codes_resolves_witness :
  exists paygLicense printed,
    choosePaygLicense failingBackend (sampleInstance "vm-1" "TERMINATED" []) "boot-1"
    = (Some paygLicense, printed) /\
    (paygLicense = rhel8Server \/ paygLicense = rhel9Server) /\
    forall st instanceObj bootDisk others,
      InstancesGet failingBackend "demo" "us-central1-a" "vm-1" = Ok instanceObj ->
      Disks instanceObj = bootDisk :: others ->
      diskNameOf bootDisk = "boot-1" ->
      nonEmpty "boot-1" = true ->
      convertInstance failingBackend (sampleInstance "vm-1" "TERMINATED" []) st
      = patchDisk failingBackend (sampleInstance "vm-1" "TERMINATED" []) "boot-1" paygLicense
          (freshConversion (sampleInstance "vm-1" "TERMINATED" []))
          (emit (statusLines (sampleInstance "vm-1" "TERMINATED" []) ++ printed) st).
Proof.
  apply (no_license_codes_resolves failingBackend
           (sampleInstance "vm-1" "TERMINATED" []) "boot-1").
  reflexivity.
Defined.

Lemma unrecognized_license_fails_witness :
  let instance := sampleInstance "vm-1" "RUNNING" ["debian-cloud:debian-12"] in
  let after := convertInstance healthyBackend instance emptyRun in
  results after
  = [{| ConvInstance := instance; OriginalOS := "debian-cloud:debian-12";
        ConversionURL := ""; Success := false; NewOS := "" |}] /\
  trace after
  = [Printf (LogInstanceStatus "vm-1" "RUNNING");
     Printf (LogCouldNotDetermineLicense "vm-1" "debian-cloud:debian-12")] /\
  patches (trace after) = [].
Proof.
  intros instance.
  apply (unrecognized_license_fails healthyBackend instance emptyRun
           {| ApiName := "vm-1"; ApiStatus := "RUNNING"; ApiMachineType := "e2-medium";
              NetworkInterfaces := []; Disks := [sampleBootDisk] |}
           sampleBootDisk []);
    [reflexivity | reflexivity | reflexivity | discriminate | reflexivity | reflexivity].
Defined.

(** ** The conversion loop: one record per instance, each on its own *)

Ltac unfold_run :=
  unfold outcome, convertInstance, patchDisk, failed, emit, appendResult, emptyRun,
    setSuccess, setConversionURL, setNewOS in *.

(** An iteration only appends: to the slice, and to the trace. *)
Lemma convertInstance_appends b instance st :
  convertInstance b instance st
  = {| results := results st ++ results (outcome b instance);
       trace := trace st ++ trace (outcome b instance) |}.
Proof.
  destruct st as [records events]. unfold_run.
  repeat case_match; simplify_eq; cbn [results trace];
    rewrite ?app_nil_l, <- ?app_assoc; reflexivity.
Qed.

(** Every path through the loop body appends exactly one record, and it is
    the record of the instance at hand. *)
Lemma outcome_one_record b instance :
  exists record,
    results (outcome b instance) = [record] /\ ConvInstance record = instance /\
    OriginalOS record = strings.Join (LicenseCodes instance) ", ".
Proof.
  unfold_run. repeat case_match; simplify_eq; cbn [results trace]; eauto.
Qed.

Lemma convertLoop_appends svc i instances st :
  convertLoop svc i instances st
  = {| results := results st ++ recordsFrom svc i instances;
       trace := trace st ++ eventsFrom svc i instances |}.
Proof.
  revert i st. induction instances as [|instance rest IH]; intros i st.
  - destruct st. cbn. by rewrite !app_nil_r.
  - cbn [convertLoop recordsFrom eventsFrom].
    rewrite IH, convertInstance_appends. cbn [results trace].
    by rewrite <- !app_assoc.
Qed.

Lemma ConvertToPAYG_unfold instances svc :
  ConvertToPAYG instances svc
  = {| results := recordsFrom svc 0 instances; trace := eventsFrom svc 0 instances |}.
Proof. unfold ConvertToPAYG. by rewrite convertLoop_appends. Qed.

Lemma recordsFrom_length svc i instances :
  length (recordsFrom svc i instances) = length instances.
Proof.
  revert i. induction instances as [|instance rest IH]; intros i; [done|].
  cbn [recordsFrom]. destruct (outcome_one_record (svc i) instance) as (r & -> & _).
  cbn. by rewrite IH.
Qed.

Lemma recordsFrom_lookup svc i instances j instance :
  instances !! j = Some instance ->
  recordsFrom svc i instances !! j = head (results (outcome (svc (i + j)) instance)).
Proof.
  revert i j. induction instances as [|first rest IH]; intros i j Hj; [done|].
  cbn [recordsFrom]. destruct (outcome_one_record (svc i) first) as (r & Hr & _).
  destruct j as [|j]; cbn in Hj.
  - simplify_eq. rewrite Nat.add_0_r, Hr. done.
  - rewrite Hr.
    change (recordsFrom svc (S i) rest !! j
            = head (results (outcome (svc (i + S j)) instance))).
    rewrite (IH (S i) j Hj). do 4 f_equal. lia.
Qed.

Lemma recordsFrom_instances svc i instances :
  ConvInstance <$> recordsFrom svc i instances = instances.
Proof.
  revert i. induction instances as [|instance rest IH]; intros i; [done|].
  cbn [recordsFrom]. destruct (outcome_one_record (svc i) instance) as (r & -> & <- & _).
  cbn. by rewrite IH.
Qed.

(** C7: the conversion engine returns exactly one record per input
    instance, in input order; the record at a position is the one the loop
    body makes of that instance and the answers given during its own
    iteration, so two runs that get the same answers during iteration [j]
    have the same record at [j], whatever happens in the other iterations. *)
Theorem conversion_records_independent (instances : list Instance)
    (svc svc' : ComputeService) :
  let run := results (ConvertToPAYG instances svc) in
  length run = length instances /\
  ConvInstance <$> run = instances /\
  (forall j instance, instances !! j = Some instance ->
     run !! j = head (results (convertInstance (svc j) instance emptyRun))) /\
  (forall j, svc' j = svc j ->
     results (ConvertToPAYG instances svc') !! j = run !! j).
Proof.
  intros run. subst run. rewrite !ConvertToPAYG_unfold. cbn [results].
  split; [apply recordsFrom_length|]. split; [apply recordsFrom_instances|]. split.
  - intros j instance Hj. by rewrite (recordsFrom_lookup _ _ _ _ _ Hj).
  - intros j Hsame. destruct (instances !! j) as [instance|] eqn:Hj.
    + rewrite !(recordsFrom_lookup _ _ _ _ _ Hj). cbn. by rewrite Hsame.
    + apply lookup_ge_None in Hj.
      rewrite !(proj2 (lookup_ge_None _ _)); [done| |]; by rewrite recordsFrom_length.
Qed.

(** A failure injected into the first of two conversions: the first record
    turns Failed, the second is the same in both runs. *)
Lemma conversion_records_independent_witness :
  let instances := [sampleInstance "vm-1" "RUNNING" ["rhel-byos-cloud:rhel-8-byos"];
                    sampleInstance "vm-2" "RUNNING" ["rhel-byos-cloud:rhel-9-byos"]] in
  let svc : ComputeService := fun _ => healthyBackend in
  let svc' : ComputeService := fun j => if j =? 0 then failingBackend else healthyBackend in
  results (ConvertToPAYG instances svc') !! 1 = results (ConvertToPAYG instances svc) !! 1 /\
  Success <$> results (ConvertToPAYG instances svc) = [true; true] /\
  Success <$> results (ConvertToPAYG instances svc') = [false; true].
Proof.
  intros instances svc svc'. split; [|split; reflexivity].
  destruct (conversion_records_independent instances svc svc') as (_ & _ & _ & Hsame).
  apply Hsame. reflexivity.
Defined.

(** ** Pauses *)

Lemma pauses_app events events' :
  pauses (events ++ events') = pauses events ++ pauses events'.
Proof. apply omap_app. Qed.

Lemma choosePaygLicense_no_pause b instance diskName :
  pauses (snd (choosePaygLicense b instance diskName)) = [].
Proof. unfold choosePaygLicense. by repeat case_match. Qed.

(** An iteration pauses once, for five seconds, when it names an operation,
    and not at all otherwise. *)
Lemma pauses_outcome b instance :
  pauses (trace (outcome b instance))
  = if namesOperation b instance then [5%Z] else [].
Proof.
  unfold namesOperation. unfold_run.
  destruct (InstancesGet b _ _ _) as [instanceObj|err];
    [|by destruct (isRunning instance)].
  destruct (Disks instanceObj) as [|bootDisk others];
    [by destruct (isRunning instance)|].
  destruct (nonEmpty (diskNameOf bootDisk)); cbn [andb];
    [|by destruct (isRunning instance)].
  pose proof (choosePaygLicense_no_pause b instance (diskNameOf bootDisk)) as Hquiet.
  destruct (choosePaygLicense b instance (diskNameOf bootDisk)) as [[paygLicense|] printed];
    [|by destruct (isRunning instance)].
  cbn [snd] in Hquiet.
  destruct (NewRequest b _ _ _), (DefaultClient b);
    try (destruct (isRunning instance); cbn [results trace]; cbn;
         rewrite ?pauses_app, ?Hquiet; reflexivity).
  destruct (ClientDo b _ _) as [resp|err];
    [|destruct (isRunning instance); cbn [results trace]; cbn;
      rewrite ?pauses_app, ?Hquiet; reflexivity].
  destruct (Z.ltb_spec (StatusCode resp) 200), (Z.leb_spec 300 (StatusCode resp));
    destruct (Z.leb_spec 200 (StatusCode resp)), (Z.ltb_spec (StatusCode resp) 300);
    try lia; cbn [orb andb];
    try (destruct (isRunning instance); cbn [results trace]; cbn;
         rewrite ?pauses_app, ?Hquiet; reflexivity).
  destruct (DecodeOperation b (Body resp)) as [operation|err];
    [destruct (nonEmpty (OpName operation))|];
    destruct (isRunning instance); cbn [results trace]; cbn;
    rewrite ?pauses_app, ?Hquiet; reflexivity.
Qed.

Lemma pauses_eventsFrom svc i instances :
  pauses (eventsFrom svc i instances) = replicate (namedOperations svc i instances) 5%Z.
Proof.
  revert i. induction instances as [|instance rest IH]; intros i; [done|].
  cbn [eventsFrom namedOperations]. rewrite pauses_app, pauses_outcome, IH.
  by destruct (namesOperation (svc i) instance).
Qed.

Lemma namedOperations_bound svc i instances :
  namedOperations svc i instances <= length instances.
Proof.
  revert i. induction instances as [|instance rest IH]; intros i; [done|].
  cbn [namedOperations length]. specialize (IH (S i)).
  destruct (namesOperation (svc i) instance); lia.
Qed.

(** The verification of one record does not pause and keeps the length. *)
Lemma verifyConversionAt_pauses b i st :
  pauses (trace (verifyConversionAt b i st)) = pauses (trace st).
Proof.
  unfold verifyConversionAt, assignNewOS, emit.
  repeat case_match; cbn [results trace]; rewrite ?pauses_app; cbn;
    by rewrite ?app_nil_r.
Qed.

Lemma VerifyConversion_pauses conversions svc :
  pauses (trace (VerifyConversion conversions svc)) = [15%Z].
Proof.
  unfold VerifyConversion.
  generalize (seq 0 (length conversions)). intros indices.
  assert (forall st, pauses (trace st) = [15%Z] ->
    pauses (trace (foldl (fun st i => verifyConversionAt (svc i) i st) st indices))
    = [15%Z]) as Hfold.
  { induction indices as [|i indices IH]; intros st Hst; [done|].
    cbn [foldl]. apply IH. by rewrite verifyConversionAt_pauses. }
  by apply Hfold.
Qed.

(** C9 (as the code has it): a conversion run over n matched instances
    pauses five seconds inside the loop once for every instance whose patch
    was accepted with a named operation, so between zero and n times, and
    then fifteen seconds once, when verification begins; there is no other
    pause. *)
Theorem pauses_of_a_run (matched : list Instance) (during after : ComputeService) :
  pauses (trace (convertAndVerify matched during after))
  = replicate (namedOperations during 0 matched) 5%Z ++ [15%Z] /\
  namedOperations during 0 matched <= length matched.
Proof.
  split; [|apply namedOperations_bound].
  unfold convertAndVerify. cbn [trace].
  rewrite pauses_app, VerifyConversion_pauses, ConvertToPAYG_unfold. cbn [trace].
  by rewrite pauses_eventsFrom.
Qed.

(** C9 as stated fails: with two instances whose patches are both accepted
    the run pauses three times, the short pause once per instance; with one
    instance whose conversion fails it pauses once. *)
Lemma pauses_once_per_named_operation :
  pauses (trace (convertAndVerify
                   [sampleInstance "vm-1" "RUNNING" ["rhel-byos-cloud:rhel-8-byos"];
                    sampleInstance "vm-2" "RUNNING" ["rhel-byos-cloud:rhel-9-byos"]]
                   (fun _ => healthyBackend) (fun _ => healthyBackend)))
  = [5%Z; 5%Z; 15%Z] /\
  pauses (trace (convertAndVerify
                   [sampleInstance "vm-1" "RUNNING" ["debian-cloud:debian-12"]]
                   (fun _ => healthyBackend) (fun _ => healthyBackend)))
  = [15%Z].
Proof. split; reflexivity. Qed.

(** ** Verification only enriches *)

Lemma verifiedFrom_refl conversions : Forall2 verifiedFrom conversions conversions.
Proof. apply Forall_Forall2_diag, Forall_forall. intros c _. by left. Qed.

Lemma verifiedFrom_setNewOS before after newOS :
  Success after = true -> verifiedFrom before after ->
  verifiedFrom before (setNewOS newOS after).
Proof.
  intros Hok [->|(Hbefore & s & ->)]; right; (split; [done|]); by exists newOS.
Qed.

(** One verification step leaves the slice alone or assigns [NewOS] of a
    successful record at its own index. *)
Lemma verifyConversionAt_results b i st :
  results (verifyConversionAt b i st) = results st \/
  exists conversion newOS,
    results st !! i = Some conversion /\ Success conversion = true /\
    results (verifyConversionAt b i st) = alter (setNewOS newOS) i (results st).
Proof.
  unfold verifyConversionAt.
  destruct (results st !! i) as [conversion|] eqn:Hi; [|by left].
  destruct (Success conversion) eqn:Hok; cbn [negb]; [|by left].
  unfold assignNewOS, emit.
  repeat case_match; cbn [results trace]; try (by left);
    right; eexists conversion, _; done.
Qed.

Lemma verifyConversionAt_verifiedFrom b i st conversions :
  Forall2 verifiedFrom conversions (results st) ->
  Forall2 verifiedFrom conversions (results (verifyConversionAt b i st)).
Proof.
  intros Hinv.
  destruct (verifyConversionAt_results b i st)
    as [->|(conversion & newOS & Hi & Hok & ->)]; [done|].
  apply Forall2_alter_r; [done|].
  intros before after _ Hafter Hrel. rewrite Hi in Hafter. simplify_eq.
  by apply verifiedFrom_setNewOS.
Qed.

Lemma VerifyConversion_verifiedFrom conversions svc :
  Forall2 verifiedFrom conversions (results (VerifyConversion conversions svc)).
Proof.
  unfold VerifyConversion.
  generalize (seq 0 (length conversions)). intros indices.
  assert (forall st, Forall2 verifiedFrom conversions (results st) ->
    Forall2 verifiedFrom conversions
      (results (foldl (fun st i => verifyConversionAt (svc i) i st) st indices)))
    as Hfold.
  { induction indices as [|i indices IH]; intros st Hst; [done|].
    cbn [foldl]. by apply IH, verifyConversionAt_verifiedFrom. }
  apply Hfold. cbn [results]. apply verifiedFrom_refl.
Qed.

(** C6: the verification pass returns as many records as it was given, in
    the same positions; it never changes a record's Success flag, its
    instance, its original license summary or its conversion URL; a record
    whose Success flag is false comes back as it was. *)
Theorem verification_only_enriches (conversions : list PAYGConversion)
    (svc : ComputeService) :
  let verified := results (VerifyConversion conversions svc) in
  length verified = length conversions /\
  forall i before, conversions !! i = Some before ->
    exists after,
      verified !! i = Some after /\
      Success after = Success before /\
      ConvInstance after = ConvInstance before /\
      OriginalOS after = OriginalOS before /\
      ConversionURL after = ConversionURL before /\
      (Success before = false -> after = before).
Proof.
  intros verified. subst verified.
  pose proof (VerifyConversion_verifiedFrom conversions svc) as Hrel.
  split; [symmetry; by eapply Forall2_length|].
  intros i before Hi.
  destruct (Forall2_lookup_l _ _ _ _ _ Hrel Hi) as (after & Hafter & Hstep).
  exists after. split; [done|].
  destruct Hstep as [->|(Hok & newOS & ->)]; [done|].
  cbn. repeat split; try done. intros Hfailed. congruence.
Qed.

(** A failed and a successful record through verification: the failed one
    comes back as it was, the successful one with its licenses as found on
    the disk. *)
Lemma verification_only_enriches_witness :
  let failedRecord :=
    {| ConvInstance := sampleInstance "vm-1" "RUNNING" ["debian-cloud:debian-12"];
       OriginalOS := "debian-cloud:debian-12"; ConversionURL := "";
       Success := false; NewOS := "" |} in
  let converted :=
    {| ConvInstance := sampleInstance "vm-2" "RUNNING" ["rhel-byos-cloud:rhel-9-byos"];
       OriginalOS := "rhel-byos-cloud:rhel-9-byos"; ConversionURL := "url";
       Success := true; NewOS := "PAYG: Converting to rhel-9-server" |} in
  let verified :=
    results (VerifyConversion [failedRecord; converted] (fun _ => healthyBackend)) in
  verified !! 0 = Some failedRecord /\
  verified = [failedRecord; setNewOS "rhel-cloud:rhel-9-server" converted].
Proof.
  intros failedRecord converted verified. split; [|reflexivity].
  destruct (verification_only_enriches [failedRecord; converted] (fun _ => healthyBackend))
    as [_ Hframe].
  destruct (Hframe 0 failedRecord eq_refl) as (after & Hafter & _ & _ & _ & _ & Hsame).
  rewrite (Hsame eq_refl) in Hafter. exact Hafter.
Defined.

(** ** Reconciliation matcher *)

Lemma lookup_foldl_insert (instanceMap : gmap string Instance) instances key :
  foldl (fun instanceMap instance => <[instanceKey instance := instance]> instanceMap)
        instanceMap instances !! key
  = match liveFor instances key with
    | Some instance => Some instance
    | None => instanceMap !! key
    end.
Proof.
  revert instanceMap. induction instances as [|first rest IH]; intros instanceMap; [done|].
  cbn [foldl]. rewrite IH. unfold liveFor. rewrite filter_cons.
  case_decide as Hkey.
  - rewrite last_cons. destruct (last _); [done|]. by rewrite Hkey, lookup_insert_eq.
  - destruct (last _); [done|]. by rewrite lookup_insert_ne.
Qed.

Lemma buildInstanceMap_lookup instances key :
  buildInstanceMap instances !! key = liveFor instances key.
Proof.
  unfold buildInstanceMap. rewrite lookup_foldl_insert, lookup_empty.
  by destruct (liveFor instances key).
Qed.

Lemma liveFor_Some instances key instance :
  liveFor instances key = Some instance ->
  instance ∈ instances /\ instanceKey instance = key.
Proof.
  unfold liveFor. intros Hlast. apply last_Some in Hlast as [front Hfilter].
  assert (instance ∈ filter (fun i => instanceKey i = key) instances) as Hin.
  { rewrite Hfilter. apply elem_of_app. right. by left. }
  by apply list_elem_of_filter in Hin as [? ?].
Qed.

Lemma liveFor_is_Some instances key :
  is_Some (liveFor instances key) <->
  exists instance, instance ∈ instances /\ instanceKey instance = key.
Proof.
  split.
  - intros [instance Hlast]. exists instance. by apply liveFor_Some.
  - unfold liveFor. intros (instance & Hin & Hkey).
    assert (instance ∈ filter (fun i => instanceKey i = key) instances) as Hfiltered.
    { by apply list_elem_of_filter. }
    destruct (filter _ instances) as [|x l] eqn:Hfilter; [by apply elem_of_nil in Hfiltered|].
    rewrite last_cons. destruct (last l); eauto.
Qed.

Lemma foldl_matchStep instanceMap matched missing (fileInstances : list InstanceExport) :
  foldl (matchStep instanceMap) (matched, missing) fileInstances
  = (matched ++ omap (fun r => instanceMap !! exportKey r) fileInstances,
     missing ++ omap (fun r => match instanceMap !! exportKey r with
                               | Some _ => None
                               | None => Some (exportKey r)
                               end) fileInstances).
Proof.
  revert matched missing.
  induction fileInstances as [|r rest IH]; intros matched missing.
  - cbn. by rewrite !app_nil_r.
  - cbn [foldl omap list_omap]. unfold matchStep at 2.
    destruct (instanceMap !! exportKey r) as [instance|]; rewrite IH;
      by rewrite <- ?app_assoc.
Qed.

Lemma matchRecords_spec instances fileInstances :
  matchRecords instances fileInstances
  = (matchedOf instances fileInstances, missingOf instances fileInstances).
Proof.
  unfold matchRecords, matchedOf, missingOf. rewrite foldl_matchStep. cbn [app].
  f_equal; induction fileInstances as [|r rest IH]; try done;
    cbn [omap list_omap]; by rewrite buildInstanceMap_lookup, IH.
Qed.

(** The joined key determines the pair when neither zone contains a slash. *)
Lemma matchKey_inj zone name zone' name' :
  slashFree zone = true -> slashFree zone' = true ->
  matchKey zone name = matchKey zone' name' -> zone = zone' /\ name = name'.
Proof.
  unfold matchKey. revert zone'.
  induction zone as [|c zone IH]; intros [|c' zone'] Hfree Hfree' Hkey;
    cbn in Hfree, Hfree', Hkey.
  - by simplify_eq.
  - injection Hkey as <- _. by rewrite Ascii.eqb_refl in Hfree'.
  - injection Hkey as -> _. by rewrite Ascii.eqb_refl in Hfree.
  - injection Hkey as -> Hkey.
    apply andb_prop in Hfree as [_ Hfree]. apply andb_prop in Hfree' as [_ Hfree'].
    destruct (IH zone' Hfree Hfree' Hkey) as [-> ->]. done.
Qed.

Section Matcher.
Context {yaml : Yaml}.

Lemma exportData_fmap (instances : list Instance) acc :
  foldl (fun exportData instance => exportData ++ [toExport instance]) acc instances
  = acc ++ (toExport <$> instances).
Proof.
  revert acc. induction instances as [|instance rest IH]; intros acc; cbn.
  - by rewrite app_nil_r.
  - by rewrite IH, <- app_assoc.
Qed.

Lemma CheckInstancesFromFile_parsed projectID instances (fs : FileSystem) data fileInstances :
  fs !! exportFilename projectID = Some data ->
  Unmarshal data = Ok fileInstances ->
  CheckInstancesFromFile projectID instances fs
  = (if length (matchedOf instances fileInstances) =? 0
     then Err noMatchError else Ok (matchedOf instances fileInstances),
     missingReport (missingOf instances fileInstances)).
Proof.
  intros Hfile Hparse. unfold CheckInstancesFromFile.
  rewrite Hfile, Hparse, matchRecords_spec.
  by destruct (length (matchedOf instances fileInstances) =? 0).
Qed.

(** C1 (as the code has it): a record of the export file is matched exactly
    when some live instance has the same joined key "zone/name" (compared
    byte for byte); the matched output lists, in file order, the last live
    instance carrying each matched record's key; the keys of the other
    records are reported as missing, in file order; and the call fails when
    nothing matched. *)
Theorem matcher_matches_on_key (projectID : string) (instances : list Instance)
    (fs : FileSystem) (data : document) (fileInstances : list InstanceExport) :
  fs !! exportFilename projectID = Some data ->
  Unmarshal data = Ok fileInstances ->
  CheckInstancesFromFile projectID instances fs
  = (if length (matchedOf instances fileInstances) =? 0
     then Err noMatchError else Ok (matchedOf instances fileInstances),
     missingReport (missingOf instances fileInstances)) /\
  (forall fileInstance,
     is_Some (liveFor instances (exportKey fileInstance)) <->
     exists instance, instance ∈ instances /\ instanceKey instance = exportKey fileInstance) /\
  (forall instance, instance ∈ matchedOf instances fileInstances <->
     exists fileInstance, fileInstance ∈ fileInstances /\
       liveFor instances (exportKey fileInstance) = Some instance) /\
  (forall key, key ∈ missingOf instances fileInstances <->
     exists fileInstance, fileInstance ∈ fileInstances /\ exportKey fileInstance = key /\
       forall instance, instance ∈ instances -> instanceKey instance <> key).
Proof.
  intros Hfile Hparse. split; [by eapply CheckInstancesFromFile_parsed|].
  split; [intros r; apply liveFor_is_Some|]. split.
  - intros instance. unfold matchedOf. rewrite list_elem_of_omap. done.
  - intros key. unfold missingOf. rewrite list_elem_of_omap. split.
    + intros (r & Hin & Hr). exists r. split; [done|].
      destruct (liveFor instances (exportKey r)) eqn:Hlive; simplify_eq.
      split; [done|]. intros instance Hinst Hkey.
      assert (is_Some (liveFor instances (exportKey r))) as [? ?]; [|congruence].
      apply liveFor_is_Some. eauto.
    + intros (r & Hin & <- & Hnone). exists r. split; [done|].
      destruct (liveFor instances (exportKey r)) as [instance|] eqn:Hlive; [|done].
      apply liveFor_Some in Hlive as [Hinst Hkey]. by destruct (Hnone instance Hinst).
Qed.

(** With slash-free zones on both sides, the joined key is the pair. *)
Lemma matcher_pair_when_slash_free (instances : list Instance) (fileInstance : InstanceExport) :
  Forall (fun instance => slashFree (Zone instance) = true) instances ->
  slashFree (ExportZone fileInstance) = true ->
  is_Some (liveFor instances (exportKey fileInstance)) <->
  exists instance, instance ∈ instances /\
    Zone instance = ExportZone fileInstance /\ Name instance = ExportName fileInstance.
Proof.
  intros Hzones Hzone. rewrite liveFor_is_Some. rewrite Forall_forall in Hzones.
  split; intros (instance & Hin & Hsame); exists instance; (split; [done|]).
  - by apply matchKey_inj; [apply Hzones| |].
  - destruct Hsame as [Hz Hn]. unfold instanceKey, exportKey. by rewrite Hz, Hn.
Qed.

End Matcher.

(** ** Export, then match *)

Section RoundTrip.
Context {yaml : Yaml} {os : Os}.


Lemma liveFor_NoDup (instances : list Instance) instance :
  NoDup (instanceKey <$> instances) ->
  instance ∈ instances ->
  liveFor instances (instanceKey instance) = Some instance.
Proof.
  unfold liveFor. induction instances as [|first rest IH]; intros Hnodup Hin.
  - by apply elem_of_nil in Hin.
  - rewrite fmap_cons in Hnodup. apply NoDup_cons in Hnodup as [Hfresh Hnodup].
    rewrite filter_cons. apply elem_of_cons in Hin as [->|Hin].
    + rewrite decide_True by done.
      assert (filter (fun i => instanceKey i = instanceKey first) rest = []) as ->; [|done].
      apply elem_of_nil_inv. intros other Hother.
      apply list_elem_of_filter in Hother as [Hkey Hother].
      apply Hfresh. rewrite <- Hkey. by apply list_elem_of_fmap_2.
    + rewrite decide_False; [by apply IH|].
      intros Hkey. apply Hfresh. rewrite Hkey. by apply list_elem_of_fmap_2.
Qed.




End RoundTrip.

Lemma matcher_matches_on_key_witness :
  let live := [sampleInstance "vm-1" "RUNNING" []; sampleInstance "vm-2" "RUNNING" []] in
  let file := [toExport (sampleInstance "vm-2" "RUNNING" []);
               toExport (sampleInstance "vm-9" "RUNNING" [])] in
  @CheckInstancesFromFile parsedYaml "demo" live (fileOf "demo" file)
  = (Ok [sampleInstance "vm-2" "RUNNING" []],
     [Printf (LogMissingWarning 1); Printf (LogMissingKey "us-central1-a/vm-9");
      Printf LogBlank]).
Proof.
  intros live file.
  destruct (@matcher_matches_on_key parsedYaml "demo" live (fileOf "demo" file) file file
              eq_refl eq_refl) as [Hresult _].
  exact Hresult.
Defined.

(** C1 as stated fails: the record (zone "a", name "b/c") is matched, to the
    live instance (zone "a/b", name "c"), though no live instance has its
    (zone, name) pair. *)
Lemma matcher_confuses_slash_keys :
  @CheckInstancesFromFile parsedYaml "demo" [slashInstance] (fileOf "demo" [slashRecord])
  = (Ok [slashInstance], []) /\
  Forall (fun instance =>
            (Zone instance, Name instance)
            <> (ExportZone slashRecord, ExportName slashRecord))
         [slashInstance].
Proof. split; [reflexivity|]. repeat constructor. discriminate. Qed.



(** Two live instances with one key: the matcher resolves both exported
    records to the later one. *)
Lemma roundtrip_duplicate_keys :
  let live := [sampleInstance "vm-1" "RUNNING" []; sampleInstance "vm-1" "TERMINATED" []] in
  @CheckInstancesFromFile parsedYaml "demo" live
    (fst (@ExportInstancesToYAML parsedYaml writableOs live "demo" ∅))
  = (Ok [sampleInstance "vm-1" "TERMINATED" []; sampleInstance "vm-1" "TERMINATED" []], []).
Proof. reflexivity. Qed.

(** * Further properties of the matcher and the exporter *)

Lemma matchedOf_missingOf_length instances (fileInstances : list InstanceExport) :
  length (matchedOf instances fileInstances) + length (missingOf instances fileInstances)
  = length fileInstances.
Proof.
  unfold matchedOf, missingOf.
  induction fileInstances as [|r rest IH]; [done|]. cbn [omap list_omap].
  destruct (liveFor instances (exportKey r)); cbn [length]; lia.
Qed.

Lemma matchedOf_live instances (fileInstances : list InstanceExport) instance :
  instance ∈ matchedOf instances fileInstances -> instance ∈ instances.
Proof.
  unfold matchedOf. rewrite list_elem_of_omap. intros (r & _ & Hlive).
  by apply liveFor_Some in Hlive as [? _].
Qed.

Lemma matchedOf_length instances (fileInstances : list InstanceExport) :
  length (matchedOf instances fileInstances) <= length fileInstances.
Proof. pose proof (matchedOf_missingOf_length instances fileInstances). lia. Qed.

(** When no live instance carries the key of any record, nothing is matched
    and every key is missing. *)
Lemma matchedOf_none instances (fileInstances : list InstanceExport) :
  (forall r instance, r ∈ fileInstances -> instance ∈ instances ->
     instanceKey instance <> exportKey r) ->
  matchedOf instances fileInstances = [] /\
  missingOf instances fileInstances = exportKey <$> fileInstances.
Proof.
  unfold matchedOf, missingOf. induction fileInstances as [|r rest IH]; intros Hnone; [done|].
  cbn [omap list_omap fmap list_fmap].
  destruct (liveFor instances (exportKey r)) as [instance|] eqn:Hlive.
  - apply liveFor_Some in Hlive as [Hin Hkey].
    destruct (Hnone r instance); [by left|done|done].
  - destruct IH as [-> ->]; [|done].
    intros r' instance Hr'. apply Hnone. by right.
Qed.

(** The live instance each record of [part] stands for, when the records
    carry the keys of [part], position by position. *)
Lemma matchedOf_same_keys (instances part : list Instance)
    (fileInstances : list InstanceExport) :
  NoDup (instanceKey <$> instances) ->
  part ⊆ instances ->
  Forall2 (fun r instance => exportKey r = instanceKey instance) fileInstances part ->
  matchedOf instances fileInstances = part /\ missingOf instances fileInstances = [].
Proof.
  intros Hnodup Hsub Hkeys. unfold matchedOf, missingOf.
  induction Hkeys as [|r instance rest part' Hkey _ IH]; [done|].
  assert (instance ∈ instances) as Hin by (apply Hsub; by left).
  destruct IH as [IHmatched IHmissing].
  { intros other Hother. apply Hsub. by right. }
  cbn [omap list_omap].
  rewrite Hkey, (liveFor_NoDup _ _ Hnodup Hin). by rewrite IHmatched, IHmissing.
Qed.

Section MatcherEdges.
Context {yaml : Yaml}.

(** X1: the matcher sorts every record of the file into exactly one of its
    two lists: the matched instances and the missing keys together are as
    many as the records. *)
Theorem matcher_partitions_records (instances : list Instance)
    (fileInstances : list InstanceExport) :
  length (matchRecords instances fileInstances).1
  + length (matchRecords instances fileInstances).2
  = length fileInstances.
Proof. rewrite matchRecords_spec. apply matchedOf_missingOf_length. Qed.

(** X2: a successful call never returns an empty list; what it returns are
    live instances of the list it was given, no more of them than the file
    has records. *)
Theorem matcher_ok_nonempty_and_live (projectID : string) (instances : list Instance)
    (fs : FileSystem) (matched : list Instance) (printed : list Event) :
  CheckInstancesFromFile projectID instances fs = (Ok matched, printed) ->
  matched <> [] /\
  (forall instance, instance ∈ matched -> instance ∈ instances) /\
  exists data fileInstances,
    fs !! exportFilename projectID = Some data /\
    Unmarshal data = Ok fileInstances /\
    length matched <= length fileInstances.
Proof.
  intros Hok. unfold CheckInstancesFromFile in Hok.
  destruct (fs !! exportFilename projectID) as [data|] eqn:Hfile; [|done].
  destruct (Unmarshal data) as [fileInstances|err] eqn:Hparse; [|done].
  rewrite matchRecords_spec in Hok.
  destruct (length (matchedOf instances fileInstances) =? 0) eqn:Hlen; [done|].
  injection Hok as <- _. apply Nat.eqb_neq in Hlen. split.
  - intros Hnil. by rewrite Hnil in Hlen.
  - split; [intros instance; apply matchedOf_live|].
    exists data, fileInstances. split; [done|]. split; [done|]. apply matchedOf_length.
Qed.

(** X3: when the file parses and no record's key is the key of a live
    instance (an empty file included), the call fails with the no-match
    error after reporting the key of every record as missing. *)
Theorem matcher_no_match_reports_all (projectID : string) (instances : list Instance)
    (fs : FileSystem) (data : document) (fileInstances : list InstanceExport) :
  fs !! exportFilename projectID = Some data ->
  Unmarshal data = Ok fileInstances ->
  (forall r instance, r ∈ fileInstances -> instance ∈ instances ->
     instanceKey instance <> exportKey r) ->
  CheckInstancesFromFile projectID instances fs
  = (Err noMatchError, missingReport (exportKey <$> fileInstances)).
Proof.
  intros Hfile Hparse Hnone.
  rewrite (CheckInstancesFromFile_parsed _ _ _ _ _ Hfile Hparse).
  by destruct (matchedOf_none instances fileInstances Hnone) as [-> ->].
Qed.

(** X5: the file selects the subset to convert by zone and name alone: when
    the live instances have distinct keys and the records of the file carry,
    one by one, the keys of live instances [part], the matcher returns
    exactly [part], in that order, reports nothing missing, and ignores the
    other fields of the records. *)
Theorem edited_file_selects_subset (projectID : string) (instances part : list Instance)
    (fs : FileSystem) (data : document) (fileInstances : list InstanceExport) :
  NoDup (instanceKey <$> instances) ->
  part <> [] ->
  part ⊆ instances ->
  fs !! exportFilename projectID = Some data ->
  Unmarshal data = Ok fileInstances ->
  Forall2 (fun r instance => exportKey r = instanceKey instance) fileInstances part ->
  CheckInstancesFromFile projectID instances fs = (Ok part, []).
Proof.
  intros Hnodup Hsome Hsub Hfile Hparse Hkeys.
  rewrite (CheckInstancesFromFile_parsed _ _ _ _ _ Hfile Hparse).
  destruct (matchedOf_same_keys instances part fileInstances Hnodup Hsub Hkeys) as [-> ->].
  by destruct part.
Qed.

End MatcherEdges.

Lemma matcher_ok_nonempty_and_live_witness :
  let live := [sampleInstance "vm-1" "RUNNING" []; sampleInstance "vm-2" "RUNNING" []] in
  let file := [toExport (sampleInstance "vm-2" "RUNNING" []);
               toExport (sampleInstance "vm-9" "RUNNING" [])] in
  [sampleInstance "vm-2" "RUNNING" []] <> [] /\
  (forall instance, instance ∈ [sampleInstance "vm-2" "RUNNING" []] -> instance ∈ live) /\
  exists data fileInstances,
    fileOf "demo" file !! exportFilename "demo" = Some data /\
    @Unmarshal parsedYaml data = Ok fileInstances /\
    length [sampleInstance "vm-2" "RUNNING" []] <= length fileInstances.
Proof.
  intros live file.
  exact (@matcher_ok_nonempty_and_live parsedYaml "demo" live (fileOf "demo" file)
           _ _ eq_refl).
Defined.

Lemma matcher_no_match_reports_all_witness :
  let live := [sampleInstance "vm-1" "RUNNING" []] in
  let file := [toExport (sampleInstance "vm-8" "RUNNING" []);
               toExport (sampleInstance "vm-9" "RUNNING" [])] in
  @CheckInstancesFromFile parsedYaml "demo" live (fileOf "demo" file)
  = (Err noMatchError,
     [Printf (LogMissingWarning 2); Printf (LogMissingKey "us-central1-a/vm-8");
      Printf (LogMissingKey "us-central1-a/vm-9"); Printf LogBlank]).
Proof.
  intros live file.
  apply (@matcher_no_match_reports_all parsedYaml "demo" live (fileOf "demo" file) file file
           eq_refl eq_refl).
  intros r instance Hr Hinstance.
  apply list_elem_of_singleton in Hinstance as ->.
  apply elem_of_cons in Hr as [->|Hr]; [discriminate|].
  apply list_elem_of_singleton in Hr as ->. discriminate.
Defined.

Lemma edited_file_selects_subset_witness :
  let live := [sampleInstance "vm-1" "RUNNING" []; sampleInstance "vm-2" "RUNNING" [];
               sampleInstance "vm-3" "TERMINATED" []] in
  let file := [ {| ExportName := "vm-3"; ExportZone := "us-central1-a";
                   ExportMachineType := "edited"; ExportStatus := "edited";
                   ExportLicenses := [] |};
                toExport (sampleInstance "vm-1" "RUNNING" []) ] in
  @CheckInstancesFromFile parsedYaml "demo" live (fileOf "demo" file)
  = (Ok [sampleInstance "vm-3" "TERMINATED" []; sampleInstance "vm-1" "RUNNING" []], []).
Proof.
  intros live file.
  apply (@edited_file_selects_subset parsedYaml "demo" live _ (fileOf "demo" file) file file).
  - compute_done.
  - discriminate.
  - intros instance Hin.
    apply elem_of_cons in Hin as [->|Hin]; [by right; right; left|].
    apply list_elem_of_singleton in Hin as ->. by left.
  - reflexivity.
  - reflexivity.
  - repeat constructor.
Defined.

(** ** The exporter *)

Section ExportProperties.
Context {yaml : Yaml} {os : Os}.

Lemma exportedAs_toExport (records : list InstanceExport) (instances : list Instance) :
  Forall2 exportedAs records instances <-> records = toExport <$> instances.
Proof.
  split.
  - induction 1 as [|record instance records instances Hfields _ IH]; [done|].
    rewrite fmap_cons, <- IH. f_equal.
    destruct record, Hfields as (Hname & Hzone & Hmachine & Hstatus & Hlicenses).
    cbn in *. by subst.
  - intros ->. induction instances as [|instance instances IH]; [constructor|].
    rewrite fmap_cons. by constructor.
Qed.

(** X4: the export encodes one record per instance, in order, holding the
    instance's name, zone, machine type, status and license identifiers, and
    writes it to the file named after the project.  When the encoder fails,
    nothing is written and the error is the marshalling error; when the
    write is refused, the directory is as before and the error is the write
    error; when the write breaks off, the file holds what was left and the
    error is the write error; otherwise the file holds the encoded records,
    which decode to the records again, and there is no error.  No other
    file is touched in any case. *)
Theorem export_writes_only_its_file (instances : list Instance) (projectID : string)
    (fs : FileSystem) :
  let filename := projectID +:+ "-instances.yml" in
  let after := (ExportInstancesToYAML instances projectID fs).1 in
  let err := (ExportInstancesToYAML instances projectID fs).2 in
  (forall other, other <> filename -> after !! other = fs !! other) /\
  (err = None ->
     exists data records,
       after !! filename = Some data /\
       Unmarshal data = Ok records /\
       Forall2 exportedAs records instances) /\
  (forall records, Forall2 exportedAs records instances ->
     match Marshal records with
     | Err e => after = fs /\ err = Some ("failed to marshal instances to YAML: " +:+ e)
     | Ok data =>
         match writeOutcome filename data with
         | Written => after = <[filename := data]> fs /\ err = None
         | NotWritten e => after = fs /\ err = Some ("failed to write YAML to file: " +:+ e)
         | PartlyWritten e leftover =>
             after = <[filename := leftover]> fs /\
             err = Some ("failed to write YAML to file: " +:+ e)
         end
     end).
Proof.
  intros filename after err. subst filename after err.
  unfold ExportInstancesToYAML, WriteFile, exportFilename.
  rewrite (exportData_fmap instances []). cbn [app].
  split; [|split].
  - intros other Hother.
    destruct (Marshal (toExport <$> instances)) as [data|e]; [|done].
    destruct (writeOutcome _ data); cbn [fst]; [|done|]; by rewrite lookup_insert_ne.
  - destruct (Marshal (toExport <$> instances)) as [data|e] eqn:Hmarshal; [|done].
    destruct (writeOutcome _ data); [|done..]. intros _.
    exists data, (toExport <$> instances).
    split; [apply lookup_insert_eq|].
    split; [by apply Unmarshal_Marshal|by apply exportedAs_toExport].
  - intros records ->%exportedAs_toExport.
    destruct (Marshal (toExport <$> instances)) as [data|e]; [|done].
    by destruct (writeOutcome _ data).
Qed.

End ExportProperties.

Lemma export_writes_only_its_file_witness :
  let live := [sampleInstance "vm-1" "RUNNING" []; sampleInstance "vm-2" "RUNNING" []] in
  let refused := @ExportInstancesToYAML parsedYaml readOnlyOs live "demo" ∅ in
  let broken := @ExportInstancesToYAML parsedYaml fullDiskOs live "demo" ∅ in
  (refused.1 = ∅ /\ refused.2 = Some "failed to write YAML to file: permission denied") /\
  (broken.1 = fileOf "demo" [toExport (sampleInstance "vm-1" "RUNNING" [])] /\
   broken.2 = Some "failed to write YAML to file: no space left on device").
Proof.
  intros live refused broken.
  assert (Forall2 exportedAs (toExport <$> live) live) as Hrecords
    by (repeat constructor).
  split.
  - exact (proj2 (proj2 (@export_writes_only_its_file parsedYaml readOnlyOs live "demo" ∅))
             (toExport <$> live) Hrecords).
  - exact (proj2 (proj2 (@export_writes_only_its_file parsedYaml fullDiskOs live "demo" ∅))
             (toExport <$> live) Hrecords).
Defined.

(** * Further properties of the conversion engine *)

Lemma Split_nonempty sep s : strings.Split sep s <> [].
Proof.
  destruct s as [|c s]; [done|]. cbn.
  destruct (Ascii.eqb c sep); [done|]. by destruct (strings.Split sep s).
Qed.

Lemma choosePaygLicense_known b instance diskName paygLicense printed :
  choosePaygLicense b instance diskName = (Some paygLicense, printed) ->
  (paygLicense = rhel8Server \/ paygLicense = rhel9Server) /\
  patches printed = [] /\ pauses printed = [].
Proof.
  unfold choosePaygLicense. intros Hchoice.
  repeat case_match; simplify_eq; cbn; auto.
Qed.

Lemma patches_app events events' :
  patches (events ++ events') = patches events ++ patches events'.
Proof. apply omap_app. Qed.

Lemma patches_statusLines instance : patches (statusLines instance) = [].
Proof. unfold statusLines. by destruct (isRunning instance). Qed.

(** The patch step on its own: one record, at most one request. *)
Lemma patchDisk_cases b instance diskName paygLicense conversion st :
  exists record events,
    patchDisk b instance diskName paygLicense conversion st
    = {| results := results st ++ [record]; trace := trace st ++ events |} /\
    ConvInstance record = ConvInstance conversion /\
    OriginalOS record = OriginalOS conversion /\
    ConversionURL record = patchURL instance diskName /\
    (Success record = false -> NewOS record = NewOS conversion) /\
    (Success record = true ->
       NewOS record = provisionalNewOS instance paygLicense /\
       patches events = [(patchURL instance diskName, patchBody diskName paygLicense)]) /\
    (patches events = [] \/
     patches events = [(patchURL instance diskName, patchBody diskName paygLicense)]).
Proof.
  unfold patchDisk, provisionalNewOS, failed, emit, appendResult,
    setSuccess, setConversionURL, setNewOS.
  destruct st as [records events].
  repeat case_match; simplify_eq; cbn [results trace];
    (eexists _, _; split; [rewrite <- ?app_assoc; reflexivity|]);
    cbn; repeat split; auto; try discriminate.
Qed.

(** The requests the patch step hands to the client. *)
Lemma patchDisk_patches b instance diskName paygLicense conversion st :
  patches (trace (patchDisk b instance diskName paygLicense conversion st))
  = patches (trace st)
    ++ match NewRequest b "PATCH" (patchURL instance diskName)
               (patchBody diskName paygLicense), DefaultClient b with
       | None, None => [(patchURL instance diskName, patchBody diskName paygLicense)]
       | _, _ => []
       end.
Proof.
  unfold patchDisk, failed, emit, appendResult, setSuccess, setConversionURL, setNewOS.
  destruct st as [records events].
  repeat case_match; simplify_eq; cbn [results trace];
    rewrite ?patches_app; cbn; rewrite ?app_nil_r; reflexivity.
Qed.

(** The disk name the loop body computes is the last segment of the
    source, and the loop goes on exactly when it is not empty. *)
Lemma bootDiskName_diskNameOf b instance instanceObj bootDisk others :
  InstancesGet b (Project instance) (Zone instance) (Name instance) = Ok instanceObj ->
  Disks instanceObj = bootDisk :: others ->
  bootDiskName b instance
  = if nonEmpty (diskNameOf bootDisk) then Some (diskNameOf bootDisk) else None.
Proof.
  intros Hget Hdisks. unfold bootDiskName, diskNameOf, nonEmpty.
  rewrite Hget, Hdisks.
  destruct (String.eqb_spec (Source bootDisk) "") as [->|Hsource]; [done|].
  cbn [negb].
  destruct (last (strings.Split strings.slash (Source bootDisk))) as [diskName|] eqn:Hlast.
  - cbn [default from_option id]. by destruct (String.eqb diskName "").
  - apply last_None in Hlast. by apply Split_nonempty in Hlast.
Qed.

(** One iteration: one record, of the form [recordOf] gives, and the call
    of the client [patchCall] gives. *)
Lemma outcome_record b instance :
  exists record,
    results (outcome b instance) = [record] /\
    recordOf b instance record /\
    patches (trace (outcome b instance)) = option_list (patchCall b instance).
Proof.
  assert (forall line,
    patchTarget b instance = None ->
    exists record,
      results (failed (freshConversion instance) line (emit (statusLines instance) emptyRun))
      = [record] /\ recordOf b instance record /\
      patches (trace (failed (freshConversion instance) line
                        (emit (statusLines instance) emptyRun)))
      = option_list (patchCall b instance)) as Hfailed.
  { intros line Hnone. exists (setSuccess false (freshConversion instance)).
    unfold failed, emit, appendResult, emptyRun. cbn [results trace app].
    rewrite patches_app, patches_statusLines.
    unfold recordOf, patchCall. rewrite Hnone. cbn.
    repeat split; auto; discriminate. }
  unfold outcome.
  destruct (InstancesGet b (Project instance) (Zone instance) (Name instance))
    as [instanceObj|err] eqn:Hget.
  2: { unfold convertInstance. rewrite Hget. fold (freshConversion instance).
       destruct (Hfailed (LogInstanceGetError (Name instance) err)) as (record & H).
       { unfold patchTarget, bootDiskName. by rewrite Hget. }
       exists record. unfold statusLines in H.
       destruct (isRunning instance); by rewrite ?emit_emit. }
  destruct (Disks instanceObj) as [|bootDisk others] eqn:Hdisks.
  { unfold convertInstance. rewrite Hget, Hdisks. fold (freshConversion instance).
    destruct (Hfailed (LogNoDisks (Name instance))) as (record & H).
    { unfold patchTarget, bootDiskName. by rewrite Hget, Hdisks. }
    exists record. unfold statusLines in H.
    destruct (isRunning instance); by rewrite ?emit_emit. }
  pose proof (bootDiskName_diskNameOf _ _ _ _ _ Hget Hdisks) as Hdisk.
  destruct (nonEmpty (diskNameOf bootDisk)) eqn:Hname.
  2: { unfold convertInstance. rewrite Hget, Hdisks, Hname. fold (freshConversion instance).
       destruct (Hfailed (LogNoDiskName (Name instance))) as (record & H).
       { unfold patchTarget. by rewrite Hdisk. }
       exists record. unfold statusLines in H.
       destruct (isRunning instance); by rewrite ?emit_emit. }
  rewrite (convertInstance_reaches_switch _ _ _ _ _ _ Hget Hdisks Hname).
  destruct (choosePaygLicense b instance (diskNameOf bootDisk))
    as [[paygLicense|] printed] eqn:Hchoice.
  2: { apply Hfailed. unfold patchTarget. rewrite Hdisk. cbn. by rewrite Hchoice. }
  assert (patchTarget b instance = Some (diskNameOf bootDisk, paygLicense)) as Htarget.
  { unfold patchTarget. rewrite Hdisk. cbn. by rewrite Hchoice. }
  destruct (choosePaygLicense_known _ _ _ _ _ Hchoice) as (Hknown & Hquiet & _).
  pose proof (patchDisk_patches b instance (diskNameOf bootDisk) paygLicense
                (freshConversion instance)
                (emit (statusLines instance ++ printed) emptyRun)) as Hsent.
  destruct (patchDisk_cases b instance (diskNameOf bootDisk) paygLicense
              (freshConversion instance) (emit (statusLines instance ++ printed) emptyRun))
    as (record & events & Hrun & Hinst & Horig & Hurl & Hfail & Hok & _).
  rewrite Hrun in Hsent |- *. exists record. cbn [results trace emit emptyRun app] in *.
  rewrite !patches_app, patches_statusLines, Hquiet in Hsent. cbn [app] in Hsent.
  rewrite !patches_app, patches_statusLines, Hquiet. cbn [app].
  assert (patches events = option_list (patchCall b instance)) as Hcall.
  { rewrite Hsent. unfold patchCall. rewrite Htarget. cbn.
    change (licensesEndpoint instance (diskNameOf bootDisk))
      with (patchURL instance (diskNameOf bootDisk)).
    change (licensesPatch (diskNameOf bootDisk) paygLicense)
      with (patchBody (diskNameOf bootDisk) paygLicense).
    by destruct (NewRequest b _ _ _), (DefaultClient b). }
  split; [done|]. split; [|done].
  unfold recordOf. rewrite Htarget, Hinst, Horig, Hurl. cbn.
  split; [done|]. split; [done|]. split; [done|]. split; [exact Hfail|].
  intros Htrue. destruct (Hok Htrue) as [Hnew Hone].
  exists (diskNameOf bootDisk), paygLicense.
  split; [done|]. split; [done|]. split; [done|].
  rewrite Hone in Hcall. destruct (patchCall b instance) as [call|]; [|done].
  cbn in Hcall. by simplify_eq.
Qed.

Lemma recordsFrom_recordOf svc i instances :
  Forall2 (fun record '(j, instance) => recordOf (svc (i + j)) instance record)
    (recordsFrom svc i instances) (imap pair instances).
Proof.
  revert i. induction instances as [|instance rest IH]; intros i; [constructor|].
  cbn [recordsFrom]. rewrite imap_cons.
  destruct (outcome_record (svc i) instance) as (record & -> & Hrecord & _).
  cbn [app]. constructor; [by rewrite Nat.add_0_r|].
  specialize (IH (S i)).
  replace (imap (pair ∘ S) rest) with (prod_map S id <$> imap pair rest)
    by (rewrite fmap_imap; by apply imap_ext).
  apply Forall2_fmap_r. eapply Forall2_impl; [exact IH|].
  intros r [j x]. cbn. by rewrite Nat.add_succ_r.
Qed.

Lemma length_omap_le {A B} (f : A -> option B) (l : list A) :
  length (omap f l) <= length l.
Proof.
  induction l as [|x l IH]; [done|]. cbn [omap list_omap].
  destruct (f x); cbn [length]; lia.
Qed.

Lemma eventsFrom_patchCalls svc i instances :
  patches (eventsFrom svc i instances)
  = omap id (imap (fun j instance => patchCall (svc (i + j)) instance) instances).
Proof.
  revert i. induction instances as [|instance rest IH]; intros i; [done|].
  cbn [eventsFrom]. rewrite patches_app, imap_cons, Nat.add_0_r.
  destruct (outcome_record (svc i) instance) as (record & _ & _ & ->).
  rewrite IH.
  replace (imap ((fun j x => patchCall (svc (i + j)) x) ∘ S) rest)
    with (imap (fun j x => patchCall (svc (S i + j)) x) rest)
    by (apply imap_ext; intros j x _; cbn; do 2 f_equal; lia).
  by destruct (patchCall (svc i) instance).
Qed.

(** X6: the engine returns one record per instance, in order, and the record
    at position j is the one the j-th iteration's answers determine.  It
    holds the instance and its identifiers joined as the original summary.
    Its conversion URL is the licenses path of a disk exactly when the
    iteration fetched the instance, found a first disk whose source ends in
    a non-empty segment, and the classification chose a target; the disk
    is then the one that last segment names, in the project and zone of the
    instance; otherwise the URL is empty.  A Failed record has an empty
    post-state.  A Success record has the provisional post-state for the
    chosen target, which is the rhel-8-server or the rhel-9-server license,
    and its iteration has called the client with that URL and a body naming
    that disk and that license. *)
Theorem conversion_records_well_formed (instances : list Instance) (svc : ComputeService) :
  Forall2 (fun record '(j, instance) => recordOf (svc j) instance record)
    (results (ConvertToPAYG instances svc)) (imap pair instances).
Proof. rewrite ConvertToPAYG_unfold. apply (recordsFrom_recordOf svc 0). Qed.

(** X7: the calls of the HTTP client in a conversion run are, in order, one
    for each instance whose iteration fetched the instance, found a first
    disk whose source ends in a non-empty segment, chose a target license,
    built the request and obtained a client, and none for the other
    instances: so at most one call per instance.  The call for an instance
    goes to the licenses path of the disk named by that segment, in the
    project and zone of the instance, with a body naming that disk and the
    chosen license and no other.  (What the client does within one call is
    not part of the trace.) *)
Theorem patch_calls_per_instance (instances : list Instance) (svc : ComputeService) :
  let run := ConvertToPAYG instances svc in
  patches (trace run)
  = omap id (imap (fun j instance => patchCall (svc j) instance) instances) /\
  length (patches (trace run)) <= length instances.
Proof.
  intros run. subst run. rewrite ConvertToPAYG_unfold. cbn [results trace].
  rewrite (eventsFrom_patchCalls svc 0). split; [done|].
  etrans; [apply length_omap_le|]. by rewrite length_imap.
Qed.

Lemma conversion_records_well_formed_witness :
  let instances := [sampleInstance "vm-1" "STOPPED" ["rhel-byos-cloud:rhel-8-byos"];
                    sampleInstance "vm-2" "RUNNING" ["debian-cloud:debian-12"]] in
  exists converted skipped,
    results (ConvertToPAYG instances (fun _ => healthyBackend)) = [converted; skipped] /\
    ConversionURL converted
    = "https://www.googleapis.com/compute/alpha/projects/demo/zones/us-central1-a/disks/boot-1?paths=licenses" /\
    (Success converted = true ->
     NewOS converted = "PAYG license applied to disk (VM status: STOPPED)") /\
    ConversionURL skipped = "".
Proof.
  intros instances.
  pose proof (conversion_records_well_formed instances (fun _ => healthyBackend)) as Hrecords.
  change (imap pair instances)
    with [(0, sampleInstance "vm-1" "STOPPED" ["rhel-byos-cloud:rhel-8-byos"]);
          (1, sampleInstance "vm-2" "RUNNING" ["debian-cloud:debian-12"])] in Hrecords.
  apply Forall2_cons_inv_r in Hrecords as (converted & rest & Hfirst & Hrecords & ->).
  apply Forall2_cons_inv_r in Hrecords as (skipped & rest' & Hsecond & Hrecords & ->).
  apply Forall2_nil_inv_r in Hrecords as ->.
  exists converted, skipped. split; [reflexivity|].
  destruct Hfirst as (_ & _ & Hurl & _ & Hsuccess).
  destruct Hsecond as (_ & _ & Hnone & _).
  split; [exact Hurl|]. split; [|exact Hnone].
  intros Htrue. destruct (Hsuccess Htrue) as (diskName & paygLicense & Htarget & _ & -> & _).
  vm_compute in Htarget. by injection Htarget as <- <-.
Defined.

Lemma patch_calls_per_instance_witness :
  let instances := [sampleInstance "vm-1" "RUNNING" ["rhel-byos-cloud:rhel-8-byos"];
                    sampleInstance "vm-2" "RUNNING" ["debian-cloud:debian-12"];
                    sampleInstance "vm-3" "RUNNING" []] in
  patches (trace (ConvertToPAYG instances (fun _ => healthyBackend)))
  = [("https://www.googleapis.com/compute/alpha/projects/demo/zones/us-central1-a/disks/boot-1?paths=licenses",
      licensesPatch "boot-1" rhel8Server);
     ("https://www.googleapis.com/compute/alpha/projects/demo/zones/us-central1-a/disks/boot-1?paths=licenses",
      licensesPatch "boot-1" rhel9Server)].
Proof.
  intros instances.
  exact (eq_trans (proj1 (patch_calls_per_instance instances (fun _ => healthyBackend)))
           eq_refl).
Defined.

Lemma status_in_2xx code :
  negb ((code <? 200)%Z || (300 <=? code)%Z) = (200 <=? code)%Z && (code <? 300)%Z.
Proof.
  destruct (Z.ltb_spec code 200), (Z.leb_spec 300 code),
    (Z.leb_spec 200 code), (Z.ltb_spec code 300); cbn; lia || reflexivity.
Qed.

(** The Success flag of an iteration's record says whether the patch was
    accepted. *)
Lemma outcome_success b instance :
  Success <$> results (outcome b instance) = [patchAccepted b instance].
Proof.
  unfold patchAccepted. unfold_run.
  destruct (InstancesGet b _ _ _) as [instanceObj|err];
    [|by destruct (isRunning instance)].
  destruct (Disks instanceObj) as [|bootDisk others];
    [by destruct (isRunning instance)|].
  destruct (nonEmpty (diskNameOf bootDisk)); cbn [andb];
    [|by destruct (isRunning instance)].
  destruct (choosePaygLicense b instance (diskNameOf bootDisk)) as [[paygLicense|] printed];
    [|by destruct (isRunning instance)].
  destruct (NewRequest b _ _ _), (DefaultClient b);
    try (by destruct (isRunning instance)).
  destruct (ClientDo b _ _) as [resp|err]; [|by destruct (isRunning instance)].
  rewrite <- status_in_2xx.
  destruct ((StatusCode resp <? 200)%Z || (300 <=? StatusCode resp)%Z); cbn [negb];
    [by destruct (isRunning instance)|].
  destruct (DecodeOperation b (Body resp)) as [operation|err];
    [destruct (nonEmpty (OpName operation))|];
    by destruct (isRunning instance).
Qed.

Lemma recordsFrom_success svc i instances :
  Success <$> recordsFrom svc i instances
  = imap (fun j instance => patchAccepted (svc (i + j)) instance) instances.
Proof.
  revert i. induction instances as [|instance rest IH]; intros i; [done|].
  cbn [recordsFrom]. rewrite fmap_app, outcome_success, IH, imap_cons, Nat.add_0_r.
  cbn [app]. f_equal. apply imap_ext. intros j x _. cbn. do 2 f_equal. lia.
Qed.

Lemma runFrom_ext svc svc' i i' instances :
  (forall j, svc (i + j) = svc' (i' + j)) ->
  recordsFrom svc i instances = recordsFrom svc' i' instances /\
  eventsFrom svc i instances = eventsFrom svc' i' instances.
Proof.
  revert i i'. induction instances as [|instance rest IH]; intros i i' Hsame; [done|].
  cbn [recordsFrom eventsFrom].
  pose proof (Hsame 0) as Hhead. rewrite !Nat.add_0_r in Hhead. rewrite Hhead.
  destruct (IH (S i) (S i')) as [-> ->]; [|done].
  intros j. specialize (Hsame (S j)).
  by rewrite !Nat.add_succ_r in Hsame.
Qed.

Lemma runFrom_app svc i instances instances' :
  recordsFrom svc i (instances ++ instances')
  = recordsFrom svc i instances ++ recordsFrom svc (i + length instances) instances' /\
  eventsFrom svc i (instances ++ instances')
  = eventsFrom svc i instances ++ eventsFrom svc (i + length instances) instances'.
Proof.
  revert i. induction instances as [|instance rest IH]; intros i.
  - cbn. by rewrite Nat.add_0_r.
  - cbn [app recordsFrom eventsFrom length]. destruct (IH (S i)) as [-> ->].
    rewrite <- !app_assoc, Nat.add_succ_r. done.
Qed.

(** X8: in the list the engine returns, the Success flag at each position
    says exactly whether that instance's iteration fetched the instance,
    found a boot disk with a name, chose a target license, built the
    request, obtained a client, and got a response with a 2xx status; the
    decoding of the response body plays no part. *)
Theorem success_iff_patch_accepted (instances : list Instance) (svc : ComputeService) :
  Success <$> results (ConvertToPAYG instances svc)
  = imap (fun j instance => patchAccepted (svc j) instance) instances.
Proof. rewrite ConvertToPAYG_unfold. cbn [results]. apply recordsFrom_success. Qed.

(** X9: converting a list in two parts is converting the first part and
    then the second: the records and the trace of a run over
    [instances ++ instances'] are those of a run over [instances] followed
    by those of a run over [instances'] that gets the answers of the later
    iterations. *)
Theorem conversion_of_appended_lists (instances instances' : list Instance)
    (svc : ComputeService) :
  let later : ComputeService := fun j => svc (length instances + j) in
  results (ConvertToPAYG (instances ++ instances') svc)
  = results (ConvertToPAYG instances svc) ++ results (ConvertToPAYG instances' later) /\
  trace (ConvertToPAYG (instances ++ instances') svc)
  = trace (ConvertToPAYG instances svc) ++ trace (ConvertToPAYG instances' later).
Proof.
  intros later. rewrite !ConvertToPAYG_unfold. cbn [results trace].
  destruct (runFrom_app svc 0 instances instances') as [-> ->].
  destruct (runFrom_ext svc later (0 + length instances) 0 instances') as [-> ->]; [|done].
  intros j. unfold later. f_equal.
Qed.

(** * Further properties of the verifier *)

Lemma VerifyConversion_verifyOver conversions svc :
  VerifyConversion conversions svc
  = verifyOver svc (seq 0 (length conversions))
      {| results := conversions;
         trace := [Printf LogWaitingForPropagation; Sleep 15] |}.
Proof. done. Qed.

Lemma verifyConversionAt_other b j st i :
  i <> j -> results (verifyConversionAt b j st) !! i = results st !! i.
Proof.
  intros Hne.
  destruct (verifyConversionAt_results b j st) as [->|(c & newOS & _ & _ & ->)]; [done|].
  by apply list_lookup_alter_ne.
Qed.

Lemma verifyOver_other svc indices st i :
  i ∉ indices -> results (verifyOver svc indices st) !! i = results st !! i.
Proof.
  unfold verifyOver. revert st.
  induction indices as [|j indices IH]; intros st Hnot; [done|].
  cbn [foldl]. rewrite IH by (intros Hin; apply Hnot; by right).
  apply verifyConversionAt_other. intros ->. apply Hnot. by left.
Qed.

(** What a step makes of the record at its own index is what it makes of
    that record alone. *)
Lemma verifyConversionAt_alone b i st before events :
  results st !! i = Some before ->
  results (verifyConversionAt b i st) !! i
  = results (verifyConversionAt b 0 {| results := [before]; trace := events |}) !! 0.
Proof.
  intros Hi. unfold verifyConversionAt, assignNewOS, emit. cbn [results trace].
  rewrite Hi. cbn [lookup list_lookup].
  repeat case_match; simplify_eq; cbn [results trace];
    rewrite ?list_lookup_alter_eq, ?Hi; done.
Qed.

Lemma seq_split_at i n :
  i < n -> seq 0 n = seq 0 i ++ i :: seq (S i) (n - S i).
Proof.
  intros Hlt. replace n with (i + S (n - S i)) at 1 by lia.
  by rewrite seq_app.
Qed.

Lemma verifyOver_app svc indices indices' st :
  verifyOver svc (indices ++ indices') st
  = verifyOver svc indices' (verifyOver svc indices st).
Proof. unfold verifyOver. by rewrite foldl_app. Qed.

Lemma VerifyConversion_at conversions svc i before :
  conversions !! i = Some before ->
  results (VerifyConversion conversions svc) !! i
  = results (VerifyConversion [before] (fun _ => svc i)) !! 0.
Proof.
  intros Hi. rewrite !VerifyConversion_verifyOver.
  assert (i < length conversions) as Hlt by (by eapply lookup_lt_Some).
  rewrite (seq_split_at i (length conversions) Hlt), verifyOver_app.
  change (i :: seq (S i) (length conversions - S i))
    with ([i] ++ seq (S i) (length conversions - S i)).
  rewrite verifyOver_app, verifyOver_other.
  2: { rewrite elem_of_seq. lia. }
  cbn [length seq verifyOver foldl].
  apply verifyConversionAt_alone.
  rewrite verifyOver_other; [done|]. rewrite elem_of_seq. lia.
Qed.

(** X10: verification treats each record on its own: the record at a
    position after the pass is what verifying that record alone, with the
    answers of its own iteration, makes of it. *)
Theorem verification_is_pointwise (conversions : list PAYGConversion)
    (svc : ComputeService) (i : nat) (before : PAYGConversion) :
  conversions !! i = Some before ->
  results (VerifyConversion conversions svc) !! i
  = results (VerifyConversion [before] (fun _ => svc i)) !! 0.
Proof. apply VerifyConversion_at. Qed.

(** X11: for a Success record whose instance and boot disk are fetched
    again, verification writes the post-state from the disk's licenses: the
    identifiers joined when there are any, else the needs-start note when
    the instance is not running, else the pending note. *)
Theorem verification_outcomes (conversions : list PAYGConversion) (svc : ComputeService)
    (i : nat) (before : PAYGConversion) (instanceObj : ComputeInstance)
    (bootDisk : AttachedDisk) (others : list AttachedDisk) (disk : Disk) :
  let instance := ConvInstance before in
  conversions !! i = Some before ->
  Success before = true ->
  InstancesGet (svc i) (Project instance) (Zone instance) (Name instance) = Ok instanceObj ->
  Disks instanceObj = bootDisk :: others ->
  nonEmpty (diskNameOf bootDisk) = true ->
  DisksGet (svc i) (Project instance) (Zone instance) (diskNameOf bootDisk) = Ok disk ->
  results (VerifyConversion conversions svc) !! i
  = Some (setNewOS (verifiedNewOS instance disk) before).
Proof.
  intros instance Hi Hok Hget Hdisks Hname Hdisk. subst instance.
  rewrite (VerifyConversion_at _ _ _ _ Hi), VerifyConversion_verifyOver.
  cbn [length seq verifyOver foldl]. unfold verifyConversionAt. cbn [results lookup list_lookup].
  rewrite Hok. cbn [negb]. rewrite Hget, Hdisks, Hname, Hdisk.
  unfold verifiedNewOS, assignNewOS.
  destruct (0 <? length (verifierLicenseCodes (Licenses disk))); [done|].
  by destruct (isRunning (ConvInstance before)).
Qed.

(** X12: when the instance cannot be fetched again, has no disk, has a
    boot disk without a name, or its disk cannot be fetched, verification
    leaves the record as the engine wrote it. *)
Theorem verification_keeps_record_on_failure (conversions : list PAYGConversion)
    (svc : ComputeService) (i : nat) (before : PAYGConversion) :
  let instance := ConvInstance before in
  conversions !! i = Some before ->
  match InstancesGet (svc i) (Project instance) (Zone instance) (Name instance) with
  | Err _ => True
  | Ok instanceObj =>
      match Disks instanceObj with
      | [] => True
      | bootDisk :: _ =>
          nonEmpty (diskNameOf bootDisk) = false \/
          exists err,
            DisksGet (svc i) (Project instance) (Zone instance) (diskNameOf bootDisk)
            = Err err
      end
  end ->
  results (VerifyConversion conversions svc) !! i = Some before.
Proof.
  intros instance Hi Hfails. subst instance.
  rewrite (VerifyConversion_at _ _ _ _ Hi), VerifyConversion_verifyOver.
  cbn [length seq verifyOver foldl]. unfold verifyConversionAt. cbn [results lookup list_lookup].
  destruct (Success before); cbn [negb]; [|done].
  destruct (InstancesGet (svc i) _ _ _) as [instanceObj|err]; [|done].
  destruct (Disks instanceObj) as [|bootDisk others]; [done|].
  destruct Hfails as [->|[err ->]]; [done|].
  by destruct (nonEmpty (diskNameOf bootDisk)).
Qed.

Lemma verifyConversionAt_lines b i st :
  verifyingLines (trace (verifyConversionAt b i st))
  = verifyingLines (trace st)
    ++ match results st !! i with
       | Some conversion =>
           if Success conversion
           then [(Name (ConvInstance conversion), Status (ConvInstance conversion))]
           else []
       | None => []
       end.
Proof.
  unfold verifyConversionAt, assignNewOS, emit, verifyingLines.
  destruct (results st !! i) as [conversion|]; [|by rewrite app_nil_r].
  destruct (Success conversion); cbn [negb]; [|by rewrite app_nil_r].
  repeat case_match; cbn [results trace]; rewrite ?omap_app; cbn;
    by rewrite ?app_nil_r, <- ?app_assoc.
Qed.

Lemma verifyOver_lines conversions svc n k st :
  (forall i, k <= i -> results st !! i = conversions !! i) ->
  verifyingLines (trace (verifyOver svc (seq k n) st))
  = verifyingLines (trace st)
    ++ ((fun c => (Name (ConvInstance c), Status (ConvInstance c)))
          <$> filter (fun c => Success c = true) (take n (drop k conversions))).
Proof.
  revert k st. induction n as [|n IH]; intros k st Hsuffix.
  { cbn. by rewrite app_nil_r. }
  change (verifyOver svc (seq k (S n)) st)
    with (verifyOver svc (seq (S k) n) (verifyConversionAt (svc k) k st)).
  rewrite IH.
  2: { intros i Hle. rewrite verifyConversionAt_other by lia. apply Hsuffix. lia. }
  rewrite verifyConversionAt_lines, Hsuffix by lia.
  rewrite <- app_assoc. f_equal.
  destruct (conversions !! k) as [conversion|] eqn:Hk.
  - rewrite (drop_S _ _ _ Hk). cbn [take]. rewrite filter_cons.
    destruct (Success conversion); case_decide; done.
  - apply lookup_ge_None in Hk.
    rewrite !drop_ge by lia. by rewrite !take_nil.
Qed.

(** X13: the pass verifies exactly the Success records, each once, in the
    order of the list: the verifying lines it prints are those of the
    Success records, and a Failed record gets none. *)
Theorem verification_visits_successes (conversions : list PAYGConversion)
    (svc : ComputeService) :
  verifyingLines (trace (VerifyConversion conversions svc))
  = (fun c => (Name (ConvInstance c), Status (ConvInstance c)))
      <$> filter (fun c => Success c = true) conversions.
Proof.
  rewrite VerifyConversion_verifyOver, (verifyOver_lines conversions) by done.
  cbn [trace verifyingLines omap list_omap app]. by rewrite drop_0, firstn_all.
Qed.

Lemma verifyConversionAt_failed b i st :
  Forall (fun c => Success c = false) (results st) -> verifyConversionAt b i st = st.
Proof.
  intros Hfailed. unfold verifyConversionAt.
  destruct (results st !! i) as [conversion|] eqn:Hi; [|done].
  rewrite Forall_lookup in Hfailed. by rewrite (Hfailed i conversion Hi).
Qed.

(** X14: when every conversion failed, the pass only waits: it returns the
    list as it was and the trace holds the waiting line and the
    fifteen-second pause, nothing else. *)
Theorem verification_skips_failed_run (conversions : list PAYGConversion)
    (svc : ComputeService) :
  Forall (fun c => Success c = false) conversions ->
  VerifyConversion conversions svc
  = {| results := conversions;
       trace := [Printf LogWaitingForPropagation; Sleep 15] |}.
Proof.
  intros Hfailed. rewrite VerifyConversion_verifyOver.
  generalize (seq 0 (length conversions)). intros indices.
  induction indices as [|i indices IH]; [done|].
  cbn [verifyOver foldl]. by rewrite verifyConversionAt_failed.
Qed.

Lemma verification_is_pointwise_witness :
  let conversions := [sampleRecord "vm-1" "RUNNING" false; sampleRecord "vm-2" "RUNNING" true] in
  let svc : ComputeService := fun j => if j =? 1 then healthyBackend else failingBackend in
  results (VerifyConversion conversions svc) !! 1
  = results (VerifyConversion [sampleRecord "vm-2" "RUNNING" true] (fun _ => svc 1)) !! 0.
Proof.
  intros conversions svc.
  exact (verification_is_pointwise conversions svc 1 _ eq_refl).
Defined.

Lemma verification_outcomes_witness :
  let conversions := [sampleRecord "vm-1" "RUNNING" false; sampleRecord "vm-2" "RUNNING" true] in
  results (VerifyConversion conversions (fun _ => healthyBackend)) !! 1
  = Some (setNewOS "rhel-cloud:rhel-9-server" (sampleRecord "vm-2" "RUNNING" true)).
Proof.
  intros conversions.
  exact (verification_outcomes conversions (fun _ => healthyBackend) 1
           (sampleRecord "vm-2" "RUNNING" true)
           {| ApiName := "vm-2"; ApiStatus := "RUNNING"; ApiMachineType := "e2-medium";
              NetworkInterfaces := []; Disks := [sampleBootDisk] |}
           sampleBootDisk []
           {| SourceImage := "projects/rhel-cloud/global/images/rhel-9-v20240515";
              Licenses := [rhel9Server] |}
           eq_refl eq_refl eq_refl eq_refl eq_refl eq_refl).
Defined.

Lemma verification_keeps_record_on_failure_witness :
  results (VerifyConversion [sampleRecord "vm-2" "RUNNING" true] (fun _ => failingBackend)) !! 0
  = Some (sampleRecord "vm-2" "RUNNING" true).
Proof.
  exact (verification_keeps_record_on_failure [sampleRecord "vm-2" "RUNNING" true]
           (fun _ => failingBackend) 0 _ eq_refl I).
Defined.

Lemma verification_skips_failed_run_witness :
  VerifyConversion [sampleRecord "vm-1" "RUNNING" false; sampleRecord "vm-2" "STOPPED" false]
    (fun _ => healthyBackend)
  = {| results := [sampleRecord "vm-1" "RUNNING" false; sampleRecord "vm-2" "STOPPED" false];
       trace := [Printf LogWaitingForPropagation; Sleep 15] |}.
Proof.
  apply verification_skips_failed_run. repeat constructor.
Defined.

(** * Further properties of the catalog *)

Lemma Split_slashFree s :
  slashFree s = true -> strings.Split strings.slash s = [s].
Proof.
  induction s as [|c s IH]; [done|]. cbn. intros Hfree.
  apply andb_prop in Hfree as [Hc Hs]. apply negb_true_iff in Hc.
  by rewrite Hc, (IH Hs).
Qed.

Lemma Split_app_slash a b :
  strings.Split strings.slash (a +:+ String strings.slash b)
  = strings.Split strings.slash a ++ strings.Split strings.slash b.
Proof.
  induction a as [|c a IH].
  - reflexivity.
  - change (String c a +:+ String strings.slash b)
      with (String c (a +:+ String strings.slash b)).
    cbn [strings.Split]. rewrite IH.
    destruct (Ascii.eqb c strings.slash); [done|].
    pose proof (Split_nonempty strings.slash a) as Hne.
    by destruct (strings.Split strings.slash a).
Qed.

Lemma Split_parts_slashFree s :
  Forall (fun part => slashFree part = true) (strings.Split strings.slash s).
Proof.
  induction s as [|c s IH]; [by repeat constructor|]. cbn [strings.Split].
  destruct (Ascii.eqb c strings.slash) eqn:Hc; [by constructor|].
  destruct (strings.Split strings.slash s) as [|part parts].
  - constructor; [cbn; by rewrite Hc|constructor].
  - apply Forall_cons in IH as [Hpart Hparts]. constructor; [|done].
    cbn. by rewrite Hc, Hpart.
Qed.

Lemma licenseURL_parts project licenseName :
  slashFree project = true -> slashFree licenseName = true ->
  strings.Split strings.slash (licenseURL project licenseName)
  = ["https:"; ""; "www.googleapis.com"; "compute"; "v1"; "projects"; project;
     "global"; "licenses"; licenseName].
Proof.
  intros Hp Hl. unfold licenseURL.
  change ("https://www.googleapis.com/compute/v1/projects/" +:+ project
          +:+ "/global/licenses/" +:+ licenseName)
    with ("https://www.googleapis.com/compute/v1/projects"
          +:+ String strings.slash
                (project +:+ String strings.slash
                   ("global" +:+ String strings.slash
                      ("licenses" +:+ String strings.slash licenseName)))).
  rewrite !Split_app_slash, (Split_slashFree project Hp), (Split_slashFree licenseName Hl).
  reflexivity.
Qed.

(** X15: a license URL of the documented form, with a project and a
    license name that contain no slash, is catalogued as "project:license",
    and the verifier derives the same identifier from it. *)
Theorem license_url_identifier (project licenseName : string) :
  slashFree project = true -> slashFree licenseName = true ->
  catalogLicenseCodes [licenseURL project licenseName]
  = [project +:+ ":" +:+ licenseName] /\
  verifierLicenseCodes [licenseURL project licenseName]
  = [project +:+ ":" +:+ licenseName].
Proof.
  intros Hp Hl. pose proof (licenseURL_parts project licenseName Hp Hl) as Hparts.
  unfold catalogLicenseCodes, verifierLicenseCodes. cbn [foldl].
  unfold catalogLicenseStep, verifierLicenseStep. rewrite Hparts. done.
Qed.

Lemma license_url_identifier_witness :
  catalogLicenseCodes [licenseURL "rhel-cloud" "rhel-8-server"] = ["rhel-cloud:rhel-8-server"] /\
  verifierLicenseCodes [licenseURL "rhel-cloud" "rhel-8-server"] = ["rhel-cloud:rhel-8-server"].
Proof. apply (license_url_identifier "rhel-cloud" "rhel-8-server"); reflexivity. Defined.

(** X16: on license URLs that all split into six segments or more, as
    every full resource URL does, the verifier's extraction and the
    catalog's give the same identifiers. *)
Theorem extractions_agree_on_long_urls (licenses : list string) :
  Forall (fun license => 6 <= length (strings.Split strings.slash license)) licenses ->
  verifierLicenseCodes licenses = catalogLicenseCodes licenses /\
  length (verifierLicenseCodes licenses) = length licenses.
Proof.
  intros Hlong. rewrite (verifierLicenseCodes_long_urls _ Hlong).
  split; [done|]. by rewrite catalogLicenseCodes_fmap, length_fmap.
Qed.

Lemma extractions_agree_on_long_urls_witness :
  verifierLicenseCodes [rhel8Server; rhel9Server]
  = catalogLicenseCodes [rhel8Server; rhel9Server] /\
  length (verifierLicenseCodes [rhel8Server; rhel9Server]) = 2.
Proof.
  apply (extractions_agree_on_long_urls [rhel8Server; rhel9Server]).
  apply Forall_cons; split; [vm_compute; lia|].
  apply Forall_cons; split; [vm_compute; lia|]. apply Forall_nil_2.
Defined.

Lemma HasPrefix_app prefix s : strings.HasPrefix (prefix +:+ s) prefix = true.
Proof.
  induction prefix as [|c prefix IH]; [by destruct s|].
  change (String c prefix +:+ s) with (String c (prefix +:+ s)).
  cbn [strings.HasPrefix]. by rewrite Ascii.eqb_refl, IH.
Qed.

Lemma TrimPrefix_app prefix s : strings.TrimPrefix (prefix +:+ s) prefix = s.
Proof.
  unfold strings.TrimPrefix. rewrite HasPrefix_app.
  induction prefix as [|c prefix IH]; [by destruct s|].
  change (String c prefix +:+ s) with (String c (prefix +:+ s)). exact IH.
Qed.

(** X17: the catalog's summary of an API instance carries the requested
    project, the instance's name and status, a machine type without any
    slash (the last segment of the API's machine type), and, for a zone key
    of the form zones/ZONE, the zone ZONE. *)
Theorem summary_short_names (projectID zone : string) (instance : ComputeInstance) :
  let summary := summarizeInstance projectID ("zones/" +:+ zone) instance in
  Project summary = projectID /\
  Name summary = ApiName instance /\
  Status summary = ApiStatus instance /\
  Zone summary = zone /\
  slashFree (MachineType summary) = true /\
  exists front,
    strings.Split strings.slash (ApiMachineType instance) = front ++ [MachineType summary].
Proof.
  intros summary. subst summary. unfold summarizeInstance.
  destruct (match Disks instance with
            | [] => _
            | bootDisk :: _ => _
            end) as [[licenseCodes diskType] diskSizeGB].
  cbn [Project Name Status Zone MachineType].
  split; [done|]. split; [done|]. split; [done|]. split; [apply TrimPrefix_app|].
  destruct (last (strings.Split strings.slash (ApiMachineType instance)))
    as [short|] eqn:Hlast.
  - cbn [default]. apply last_Some in Hlast as [front Hparts]. split; [|by exists front].
    pose proof (Split_parts_slashFree (ApiMachineType instance)) as Hfree.
    rewrite Hparts in Hfree. apply Forall_app in Hfree as [_ Hfree].
    by apply Forall_cons in Hfree as [? _].
  - apply last_None in Hlast. by destruct (Split_nonempty _ _ Hlast).
Qed.

(** * Classification, identifier by identifier *)

Lemma ToLower_app a b :
  strings.ToLower (a +:+ b) = strings.ToLower a +:+ strings.ToLower b.
Proof.
  induction a as [|c a IH]; [done|].
  change (String c a +:+ b) with (String c (a +:+ b)). cbn [strings.ToLower].
  by rewrite IH.
Qed.

Lemma ToLower_Join codes sep :
  strings.ToLower (strings.Join codes sep)
  = strings.Join (strings.ToLower <$> codes) (strings.ToLower sep).
Proof.
  induction codes as [|code codes IH]; [done|].
  destruct codes as [|code' codes]; [done|].
  change (strings.Join (code :: code' :: codes) sep)
    with (code +:+ sep +:+ strings.Join (code' :: codes) sep).
  rewrite !ToLower_app, IH. done.
Qed.

Lemma HasPrefix_before_space s rest marker :
  spaceFree marker = true ->
  strings.HasPrefix (s +:+ String " "%char rest) marker = strings.HasPrefix s marker.
Proof.
  revert marker. induction s as [|c s IH]; intros [|p marker] Hfree; try done.
  - cbn in Hfree. apply andb_prop in Hfree as [Hp _]. apply negb_true_iff in Hp.
    change ("" +:+ String " "%char rest) with (String " "%char rest).
    cbn [strings.HasPrefix]. by rewrite Ascii.eqb_sym, Hp.
  - cbn in Hfree. apply andb_prop in Hfree as [_ Hfree].
    change (String c s +:+ String " "%char rest)
      with (String c (s +:+ String " "%char rest)).
    cbn [strings.HasPrefix]. by rewrite IH.
Qed.

Lemma Contains_around_space a b marker :
  spaceFree marker = true -> marker <> "" ->
  strings.Contains (a +:+ String " "%char b) marker
  = strings.Contains a marker || strings.Contains b marker.
Proof.
  intros Hfree Hsome. induction a as [|c a IH].
  - change ("" +:+ String " "%char b) with (String " "%char b).
    cbn [strings.Contains].
    rewrite <- (HasPrefix_before_space "" b marker Hfree).
    change ("" +:+ String " "%char b) with (String " "%char b).
    destruct marker as [|p marker]; [done|].
    cbn in Hfree. apply andb_prop in Hfree as [Hp _]. apply negb_true_iff in Hp.
    cbn [strings.HasPrefix]. by rewrite Ascii.eqb_sym, Hp.
  - change (String c a +:+ String " "%char b) with (String c (a +:+ String " "%char b)).
    cbn [strings.Contains].
    rewrite IH. rewrite <- (HasPrefix_before_space (String c a) b marker Hfree).
    change (String c a +:+ String " "%char b) with (String c (a +:+ String " "%char b)).
    by rewrite orb_assoc.
Qed.

Lemma Contains_Join_space codes marker :
  spaceFree marker = true -> marker <> "" ->
  strings.Contains (strings.Join codes " ") marker
  = existsb (fun code => strings.Contains code marker) codes.
Proof.
  intros Hfree Hsome. induction codes as [|code codes IH].
  - destruct marker; done.
  - destruct codes as [|code' codes].
    + cbn. by rewrite orb_false_r.
    + change (strings.Join (code :: code' :: codes) " ")
        with (code +:+ String " "%char (strings.Join (code' :: codes) " ")).
      rewrite (Contains_around_space _ _ _ Hfree Hsome), IH. done.
Qed.

Lemma currentOS_carries instance marker :
  spaceFree marker = true -> marker <> "" ->
  strings.Contains (currentOSOf instance) marker
  = existsb (carries marker) (LicenseCodes instance).
Proof.
  intros Hfree Hsome. unfold currentOSOf.
  rewrite ToLower_Join. change (strings.ToLower " ") with " ".
  rewrite (Contains_Join_space _ _ Hfree Hsome).
  induction (LicenseCodes instance) as [|code codes IH]; [done|].
  cbn. by rewrite IH.
Qed.

(** X18: the target license is decided identifier by identifier: it is
    rhel-8-server when some identifier of the instance, lowercased,
    contains rhel-8; else rhel-9-server when some identifier contains
    rhel-9; else, with no identifier at all, what the boot disk's source
    image says (rhel-8-server when it contains rhel-8, rhel-9-server
    otherwise and when the disk cannot be fetched); else none.  A marker
    never arises from two neighbouring identifiers. *)
Theorem classification_by_identifier (b : Backend) (instance : Instance)
    (diskName : string) :
  (choosePaygLicense b instance diskName).1
  = if existsb (carries "rhel-8") (LicenseCodes instance) then Some rhel8Server
    else if existsb (carries "rhel-9") (LicenseCodes instance) then Some rhel9Server
    else match LicenseCodes instance with
         | [] =>
             match DisksGet b (Project instance) (Zone instance) diskName with
             | Err _ => Some rhel9Server
             | Ok disk => if carries "rhel-8" (SourceImage disk)
                          then Some rhel8Server else Some rhel9Server
             end
         | _ :: _ => None
         end.
Proof.
  unfold choosePaygLicense.
  rewrite !currentOS_carries by done.
  destruct (existsb (carries "rhel-8") (LicenseCodes instance)); [done|].
  destruct (existsb (carries "rhel-9") (LicenseCodes instance)); [done|].
  destruct (LicenseCodes instance) as [|code codes]; [|done].
  cbn [length Nat.eqb].
  destruct (DisksGet b (Project instance) (Zone instance) diskName) as [disk|err]; [|done].
  unfold carries. destruct (SourceImage disk) as [|c image]; [done|].
  cbn [nonEmpty String.eqb negb andb].
  by destruct (strings.Contains (strings.ToLower (String c image)) "rhel-8").
Qed.

(** * Listing calls *)

Section Paging.
Context {P A : Type} (nextPageToken : P -> string) (f : A -> P -> A).

(** Pages that continue are all consumed. *)
Lemma Pages_continue pages fetches collected :
  allContinue nextPageToken pages ->
  Pages nextPageToken f ((Ok <$> pages) ++ fetches) collected
  = Pages nextPageToken f fetches (foldl f collected pages).
Proof.
  intros Hmore. revert collected.
  induction Hmore as [|page pages Hpage _ IH]; intros collected; [done|].
  cbn [fmap list_fmap app Pages foldl]. by rewrite Hpage, IH.
Qed.

(** What [Pages] has collected always satisfies an invariant of [f]. *)
Lemma Pages_invariant (Inv : A -> Prop) fetches collected collected' err :
  (forall acc page, Inv acc -> Inv (f acc page)) ->
  Inv collected ->
  Pages nextPageToken f fetches collected = Some (collected', err) ->
  Inv collected'.
Proof.
  intros Hstep. revert collected.
  induction fetches as [|[page|e] fetches IH]; intros collected Hinv Hrun; [done| |].
  - cbn [Pages] in Hrun.
    destruct (nonEmpty (nextPageToken page)); [by eapply IH; [apply Hstep|]|].
    injection Hrun as <- _. by apply Hstep.
  - cbn [Pages] in Hrun. by injection Hrun as <- _.
Qed.

End Paging.

Lemma listZone_summaries projectID instances zone :
  listZone projectID instances zone
  = instances ++ (summarizeInstance projectID zone.1 <$> zone.2).
Proof.
  destruct zone as [zoneKey zoneInstances]. unfold listZone. cbn [fst snd].
  assert (forall acc,
    foldl (fun acc instance => acc ++ [summarizeInstance projectID zoneKey instance])
          acc zoneInstances
    = acc ++ (summarizeInstance projectID zoneKey <$> zoneInstances)) as Hfold.
  { induction zoneInstances as [|instance rest IH]; intros acc; cbn.
    - by rewrite app_nil_r.
    - by rewrite IH, <- app_assoc. }
  destruct zoneInstances as [|instance rest]; [by rewrite app_nil_r|].
  cbn [length Nat.eqb]. apply Hfold.
Qed.

Lemma listPage_summaries projectID instances page :
  listPage projectID instances page = instances ++ pageSummaries projectID [page].
Proof.
  unfold listPage, pageSummaries. cbn [mbind list_bind]. rewrite app_nil_r.
  revert instances.
  induction (AggregatedItems page) as [|zone zones IH]; intros instances; cbn.
  - by rewrite app_nil_r.
  - by rewrite IH, listZone_summaries, <- app_assoc.
Qed.

Lemma foldl_listPage projectID instances pages :
  foldl (listPage projectID) instances pages = instances ++ pageSummaries projectID pages.
Proof.
  revert instances. induction pages as [|page pages IH]; intros instances.
  - cbn. by rewrite app_nil_r.
  - cbn [foldl]. rewrite IH, listPage_summaries, <- app_assoc. f_equal.
    unfold pageSummaries. cbn [mbind list_bind]. by rewrite app_nil_r.
Qed.

Lemma pageSummaries_pageInstances projectID pages :
  pageSummaries projectID pages
  = (fun source => summarizeInstance projectID source.1 source.2) <$> pageInstances pages.
Proof.
  unfold pageSummaries, pageInstances.
  induction pages as [|page pages IH]; [done|].
  cbn [mbind list_bind]. rewrite fmap_app, <- IH. f_equal.
  induction (AggregatedItems page) as [|zone zones IHzones]; [done|].
  cbn [mbind list_bind]. rewrite fmap_app, <- IHzones. f_equal.
  rewrite <- list_fmap_compose. done.
Qed.

(** C4: the catalog holds, for every instance the listing returns, exactly
    one license identifier per license URL of the instance's boot disk (the
    first disk of the API instance), at the URL's position; it is
    "{4th-from-last segment}:{last segment}" when the URL splits on '/' into
    six segments or more, and the URL's base name otherwise.  This holds of
    the summary made of any API instance, and so of a listing: when the
    fetches answer with pages that each name a next page and then with one
    that names none, the listing succeeds with one instance per API
    instance of those pages, in order, under the API instance's name and
    with these identifiers. *)
Theorem catalog_license_identifier (projectID : string) :
  (forall zoneKey api,
     cataloguedLicenses api (summarizeInstance projectID zoneKey api)) /\
  (forall pages final unused,
     allContinue AggregatedNextPageToken pages ->
     AggregatedNextPageToken final = "" ->
     exists instances,
       ListInstances projectID ((Ok <$> pages) ++ Ok final :: unused)
       = Some (Ok instances) /\
       Forall2 (fun listed source =>
                  Name listed = ApiName source.2 /\ cataloguedLicenses source.2 listed)
         instances (pageInstances (pages ++ [final]))).
Proof.
  split; [intros zoneKey api; apply summarizeInstance_cataloguedLicenses|].
  intros pages final unused Hmore Hlast.
  exists (pageSummaries projectID (pages ++ [final])). split.
  - unfold ListInstances.
    rewrite (Pages_continue _ _ _ _ _ Hmore). cbn [Pages]. rewrite Hlast.
    cbn [nonEmpty String.eqb negb].
    by rewrite <- foldl_snoc, foldl_listPage.
  - rewrite pageSummaries_pageInstances.
    apply Forall2_fmap_l, Forall_Forall2_diag, Forall_forall.
    intros [zoneKey api] _.
    destruct (summarizeInstance_cataloguedLicenses projectID zoneKey api) as [Hname Hcodes].
    split; [symmetry; exact Hname|exact Hcodes].
Qed.

Lemma catalog_license_identifier_witness :
  let page := {| AggregatedItems := [("zones/us-central1-a", [twoDiskInstance])];
                 AggregatedNextPageToken := "" |} in
  exists listed,
    ListInstances "demo" [Ok page] = Some (Ok [listed]) /\
    Name listed = "vm-1" /\
    LicenseCodes listed = ["rhel-cloud:rhel-8-server"; "rhel-byos"].
Proof.
  intros page.
  destruct (catalog_license_identifier "demo") as [_ Hlisting].
  destruct (Hlisting [] page [] (Forall_nil_2 _) eq_refl)
    as (instances & Hlist & Hcodes).
  change (pageInstances ([] ++ [page])) with [("zones/us-central1-a", twoDiskInstance)]
    in Hcodes.
  apply Forall2_cons_inv_r in Hcodes as (listed & rest & [Hname Hcodes] & Hrest & ->).
  apply Forall2_nil_inv_r in Hrest as ->.
  exists listed. split; [exact Hlist|]. split; [exact Hname|].
  unfold cataloguedLicenses in Hcodes. cbn [Disks twoDiskInstance AttachedLicenses] in Hcodes.
  apply Forall2_cons_inv_l in Hcodes as (long & codes & [Hlong _] & Hcodes & ->).
  apply Forall2_cons_inv_l in Hcodes as (short & codes' & [_ Hshort] & Hcodes & ->).
  apply Forall2_nil_inv_l in Hcodes as ->.
  destruct Hlong as (project & licenseName & Hp & Hn & ->); [vm_compute; lia|].
  vm_compute in Hp, Hn. injection Hp as <-. injection Hn as <-.
  rewrite Hshort by (vm_compute; lia). reflexivity.
Defined.

(** X19: the listing drains the pages: when the fetches answer with pages
    that each name a next page and then with one that names none, the
    result is the summaries of all the instances of all these pages, page
    by page and zone by zone, and later answers are not asked for. *)
Theorem listing_drains_pages (projectID : string)
    (pages : list InstanceAggregatedList) (final : InstanceAggregatedList)
    (unused : list (Result InstanceAggregatedList)) :
  allContinue AggregatedNextPageToken pages ->
  AggregatedNextPageToken final = "" ->
  ListInstances projectID ((Ok <$> pages) ++ Ok final :: unused)
  = Some (Ok (pageSummaries projectID (pages ++ [final]))).
Proof.
  intros Hmore Hlast. unfold ListInstances.
  rewrite (Pages_continue _ _ _ _ _ Hmore). cbn [Pages]. rewrite Hlast. cbn [nonEmpty String.eqb negb].
  by rewrite <- foldl_snoc, foldl_listPage.
Qed.

(** X20: a failed page fetch fails the whole listing: whatever pages were
    fetched before it, the result is the error, prefixed, and no instance. *)
Theorem listing_fails_on_page_error (projectID : string)
    (pages : list InstanceAggregatedList) (err : error)
    (unused : list (Result InstanceAggregatedList)) :
  allContinue AggregatedNextPageToken pages ->
  ListInstances projectID ((Ok <$> pages) ++ Err err :: unused)
  = Some (Err ("failed to list instances: " +:+ err)).
Proof.
  intros Hmore. unfold ListInstances. by rewrite (Pages_continue _ _ _ _ _ Hmore).
Qed.

Lemma summarizeInstance_short projectID zoneKey instance :
  Project (summarizeInstance projectID zoneKey instance) = projectID /\
  slashFree (MachineType (summarizeInstance projectID zoneKey instance)) = true.
Proof.
  unfold summarizeInstance.
  destruct (match Disks instance with
            | [] => _
            | bootDisk :: _ => _
            end) as [[licenseCodes diskType] diskSizeGB].
  cbn [Project MachineType]. split; [done|].
  destruct (last (strings.Split strings.slash (ApiMachineType instance)))
    as [short|] eqn:Hlast.
  - cbn [default]. apply last_Some in Hlast as [front Hparts].
    pose proof (Split_parts_slashFree (ApiMachineType instance)) as Hfree.
    rewrite Hparts in Hfree. apply Forall_app in Hfree as [_ Hfree].
    by apply Forall_cons in Hfree as [? _].
  - apply last_None in Hlast. by destruct (Split_nonempty _ _ Hlast).
Qed.

(** X21: every instance a listing returns carries the project that was
    asked for and a machine type without a slash. *)
Theorem listed_instances_carry_project (projectID : string)
    (fetches : list (Result InstanceAggregatedList)) (instances : list Instance) :
  ListInstances projectID fetches = Some (Ok instances) ->
  Forall (fun instance =>
            Project instance = projectID /\ slashFree (MachineType instance) = true)
         instances.
Proof.
  unfold ListInstances. intros Hlist.
  destruct (Pages AggregatedNextPageToken (listPage projectID) fetches [])
    as [[collected [err|]]|] eqn:Hrun; simplify_eq.
  eapply (Pages_invariant _ _ _ _ _ _ _ _ _ Hrun). Unshelve.
  - intros acc page Hacc. rewrite listPage_summaries. apply Forall_app. split; [done|].
    unfold pageSummaries. apply Forall_forall. intros instance Hin.
    apply list_elem_of_bind in Hin as (page' & Hin & _).
    apply list_elem_of_bind in Hin as (zone & Hin & _).
    apply list_elem_of_fmap in Hin as (api & -> & _).
    apply summarizeInstance_short.
  - constructor.
Qed.

Lemma listing_drains_pages_witness :
  ListInstances "demo"
    ((Ok <$> [samplePage "zones/us-central1-a" ["vm-1"; "vm-2"] "page-2"])
     ++ Ok (samplePage "zones/us-east1-b" ["vm-3"] "") :: [Err "never asked"])
  = Some (Ok (pageSummaries "demo"
                ([samplePage "zones/us-central1-a" ["vm-1"; "vm-2"] "page-2"]
                 ++ [samplePage "zones/us-east1-b" ["vm-3"] ""]))).
Proof.
  apply (listing_drains_pages "demo"
           [samplePage "zones/us-central1-a" ["vm-1"; "vm-2"] "page-2"]).
  - apply Forall_cons; split; [reflexivity|apply Forall_nil_2].
  - reflexivity.
Defined.

Lemma listing_fails_on_page_error_witness :
  ListInstances "demo"
    ((Ok <$> [samplePage "zones/us-central1-a" ["vm-1"; "vm-2"] "page-2"])
     ++ Err "quota exceeded" :: [])
  = Some (Err "failed to list instances: quota exceeded").
Proof.
  apply (listing_fails_on_page_error "demo"
           [samplePage "zones/us-central1-a" ["vm-1"; "vm-2"] "page-2"]).
  apply Forall_cons; split; [reflexivity|apply Forall_nil_2].
Defined.

Lemma listed_instances_carry_project_witness :
  Forall (fun instance =>
            Project instance = "demo" /\ slashFree (MachineType instance) = true)
         (pageSummaries "demo" [samplePage "zones/us-east1-b" ["vm-3"] ""]).
Proof.
  apply (listed_instances_carry_project "demo"
           [Ok (samplePage "zones/us-east1-b" ["vm-3"] "")]).
  reflexivity.
Defined.

Lemma projects_listPage_fmap projects page :
  projects.listPage projects page
  = projects ++ ((fun project => {| projects.ID := projects.ProjectId project;
                                     projects.Name := projects.CrmName project |})
                   <$> projects.Projects page).
Proof.
  unfold projects.listPage. revert projects.
  induction (projects.Projects page) as [|project rest IH]; intros projects; cbn.
  - by rewrite app_nil_r.
  - by rewrite IH, <- app_assoc.
Qed.

Lemma foldl_projects_listPage projects pages :
  foldl projects.listPage projects pages
  = projects ++ ((fun project => {| projects.ID := projects.ProjectId project;
                                     projects.Name := projects.CrmName project |})
                   <$> (pages ≫= projects.Projects)).
Proof.
  revert projects. induction pages as [|page pages IH]; intros projects.
  - cbn. by rewrite app_nil_r.
  - cbn [foldl mbind list_bind]. rewrite IH, projects_listPage_fmap, fmap_app, <- app_assoc.
    done.
Qed.

(** X22: the project listing returns, when the pages are drained, one
    project per project of every page, in order, with its id and name; and
    when a page fetch fails, the error, prefixed, whatever was fetched
    before. *)
Theorem projects_listing (pages : list projects.ListProjectsResponse)
    (final : projects.ListProjectsResponse) (err : error)
    (unused : list (Result projects.ListProjectsResponse)) :
  allContinue projects.NextPageToken pages ->
  (projects.NextPageToken final = "" ->
   projects.ListProjects ((Ok <$> pages) ++ Ok final :: unused)
   = Some (Ok ((fun project => {| projects.ID := projects.ProjectId project;
                                  projects.Name := projects.CrmName project |})
                 <$> ((pages ++ [final]) ≫= projects.Projects)))) /\
  projects.ListProjects ((Ok <$> pages) ++ Err err :: unused)
  = Some (Err ("failed to list projects: " +:+ err)).
Proof.
  intros Hmore. unfold projects.ListProjects.
  rewrite !(Pages_continue _ _ _ _ _ Hmore). cbn [Pages]. split; [|done].
  intros ->. cbn [nonEmpty String.eqb negb].
  by rewrite <- foldl_snoc, foldl_projects_listPage.
Qed.

Lemma projects_listing_witness :
  let first := {| projects.Projects := [{| projects.ProjectId := "demo";
                                          projects.CrmName := "Demo" |}];
                  projects.NextPageToken := "next" |} in
  let final := {| projects.Projects := [{| projects.ProjectId := "prod";
                                          projects.CrmName := "Production" |}];
                  projects.NextPageToken := "" |} in
  projects.ListProjects ((Ok <$> [first]) ++ Ok final :: [])
  = Some (Ok [{| projects.ID := "demo"; projects.Name := "Demo" |};
              {| projects.ID := "prod"; projects.Name := "Production" |}]) /\
  projects.ListProjects ((Ok <$> [first]) ++ Err "denied" :: [])
  = Some (Err "failed to list projects: denied").
Proof.
  intros first final.
  destruct (projects_listing [first] final "denied" []) as [Hok Herr].
  - apply Forall_cons; split; [reflexivity|apply Forall_nil_2].
  - split; [exact (Hok eq_refl)|exact Herr].
Defined.

(** * License metadata *)

Lemma setLicenseValue_None items url :
  setLicenseValue items url = None <-> existsb isLicenseItem items = false.
Proof.
  induction items as [|item rest IH]; [done|]. cbn. unfold isLicenseItem at 1.
  destruct (String.eqb (Key item) "license"); [done|]. cbn.
  destruct (setLicenseValue rest url); [|tauto].
  split; [done|]. intros Hnone. by apply IH in Hnone.
Qed.

Lemma setLicenseValue_Some items url items' :
  setLicenseValue items url = Some items' ->
  length items' = length items /\
  find isLicenseItem items' = Some {| Key := "license"; Value := Some url |} /\
  filter (fun item => isLicenseItem item = false) items'
  = filter (fun item => isLicenseItem item = false) items /\
  forall url', setLicenseValue items' url' = setLicenseValue items url'.
Proof.
  revert items'. induction items as [|item rest IH]; intros items' Hset; [done|].
  cbn in Hset. destruct (String.eqb (Key item) "license") eqn:Hkey.
  - injection Hset as <-. apply String.eqb_eq in Hkey as Hname.
    split; [done|]. split.
    + cbn. unfold isLicenseItem. cbn. by rewrite Hkey, Hname.
    + split.
      * rewrite !filter_cons.
        repeat case_decide; unfold isLicenseItem in *; cbn in *; congruence.
      * intros url'. cbn. by rewrite Hkey.
  - destruct (setLicenseValue rest url) as [rest'|]; [|done]. injection Hset as <-.
    destruct (IH rest' eq_refl) as (Hlen & Hfind & Hothers & Hagain).
    split; [cbn; by rewrite Hlen|]. split.
    + cbn. unfold isLicenseItem at 1. by rewrite Hkey.
    + split.
      * rewrite !filter_cons. by rewrite Hothers.
      * intros url'. cbn. by rewrite Hkey, Hagain.
Qed.

Lemma upsertLicense_facts (items : list MetadataItem) (url url' : string) :
  find isLicenseItem (upsertLicense items url)
  = Some {| Key := "license"; Value := Some url |} /\
  filter (fun item => isLicenseItem item = false) (upsertLicense items url)
  = filter (fun item => isLicenseItem item = false) items /\
  length (upsertLicense items url)
  = length items + (if existsb isLicenseItem items then 0 else 1) /\
  upsertLicense (upsertLicense items url) url' = upsertLicense items url'.
Proof.
  unfold upsertLicense at 1 2 3 5.
  destruct (setLicenseValue items url) as [items'|] eqn:Hset.
  - destruct (setLicenseValue_Some _ _ _ Hset) as (Hlen & Hfind & Hothers & Hagain).
    split; [done|]. split; [done|]. split.
    + destruct (existsb isLicenseItem items) eqn:Hany; [lia|].
      apply setLicenseValue_None with (url := url) in Hany. congruence.
    + unfold upsertLicense. rewrite Hagain.
      destruct (setLicenseValue items url') as [items''|] eqn:Hset'; [done|].
      apply setLicenseValue_None in Hset'.
      apply (setLicenseValue_None items url) in Hset'. congruence.
  - apply setLicenseValue_None in Hset as Hnone. rewrite Hnone.
    assert (forall front : list MetadataItem,
      existsb isLicenseItem front = false ->
      find isLicenseItem (front ++ [{| Key := "license"; Value := Some url |}])
      = Some {| Key := "license"; Value := Some url |} /\
      filter (fun item => isLicenseItem item = false)
             (front ++ [{| Key := "license"; Value := Some url |}])
      = filter (fun item => isLicenseItem item = false) front /\
      setLicenseValue (front ++ [{| Key := "license"; Value := Some url |}]) url'
      = Some (front ++ [{| Key := "license"; Value := Some url' |}])) as Hsnoc.
    { induction front as [|item rest IH]; intros Hrest.
      - cbn [app]. split; [done|]. split; [|done].
        rewrite filter_cons, filter_nil. by case_decide.
      - cbn in Hrest. apply orb_false_elim in Hrest as [Hitem Hrest].
        destruct (IH Hrest) as (Hfind & Hfilter & Hset'). cbn [app]. split.
        + cbn. by rewrite Hitem.
        + split.
          * rewrite !filter_cons. by rewrite Hfilter.
          * cbn. unfold isLicenseItem in Hitem. by rewrite Hitem, Hset'. }
    destruct (Hsnoc items Hnone) as (Hfind & Hfilter & Hset').
    split; [done|]. split; [done|]. split; [rewrite length_app; cbn; lia|].
    unfold upsertLicense. rewrite Hset'.
    apply (setLicenseValue_None items url') in Hnone. by rewrite Hnone.
Qed.

(** X23: the license entry of the metadata is set in place or added at the
    end: afterwards the first item with key license is (license, the new
    URL); the items with other keys are the same, in the same order; the
    list has grown by one item exactly when it had no license item; and
    setting a second URL after a first gives what setting the second alone
    gives. *)
Theorem license_item_upsert (items : list MetadataItem) (url url' : string) :
  find isLicenseItem (upsertLicense items url)
  = Some {| Key := "license"; Value := Some url |} /\
  filter (fun item => isLicenseItem item = false) (upsertLicense items url)
  = filter (fun item => isLicenseItem item = false) items /\
  length (upsertLicense items url)
  = length items + (if existsb isLicenseItem items then 0 else 1) /\
  upsertLicense (upsertLicense items url) url' = upsertLicense items url'.
Proof. apply upsertLicense_facts. Qed.

(** X24: [ReplaceLicense] writes metadata at most once, and only for an
    instance it could fetch and that has a disk; what it writes keeps the
    fingerprint it read, has the new URL as its license entry, and keeps
    every entry with another key, in order. *)
Theorem replace_license_writes_once (instance : Instance) (url : string) (lc : Lifecycle) :
  let writes := metadataWrites (ReplaceLicense instance url lc).1 in
  length writes <= 1 /\
  Forall (fun written =>
            exists instanceObj metadata,
              GetAnswer lc (Project instance) (Zone instance) (Name instance)
              = Ok (instanceObj, metadata) /\
              Disks instanceObj <> [] /\
              Fingerprint written = Fingerprint metadata /\
              find isLicenseItem (Items written)
              = Some {| Key := "license"; Value := Some url |} /\
              filter (fun item => isLicenseItem item = false) (Items written)
              = filter (fun item => isLicenseItem item = false) (Items metadata))
         writes.
Proof.
  intros writes. subst writes. unfold ReplaceLicense.
  destruct (GetAnswer lc _ _ _) as [[instanceObj metadata]|err]; [|by split; [cbn; lia|]].
  destruct (Disks instanceObj) as [|disk disks] eqn:Hdisks; [by split; [cbn; lia|]|].
  cbn [length Nat.eqb].
  destruct (upsertLicense_facts (Items metadata) url url) as (Hfind & Hothers & _).
  destruct (SetMetadataAnswer lc _ _ _ _) as [op|err]; cbn; (split; [lia|]);
    repeat constructor; exists instanceObj, metadata; rewrite Hdisks; done.
Qed.

(** * The console menu *)

Section ConsoleProperties.
Context {runtime : Runtime}.

Lemma SelectInstance_cases (instances : list Instance) (stdin : Stdin)
    (selection : Selection) (shown : list MenuEvent) (rest : Stdin) :
  SelectInstance instances stdin = Some (selection, shown, rest) ->
  exists answer,
    stdin = answer :: rest /\
    length shown = length instances + 2 /\
    match selection with
    | Selected instance =>
        exists input choice,
          answer = Ok input /\ Atoi (TrimSpace input) = Some choice /\
          (1 <= choice <= Z.of_nat (length instances))%Z /\
          instances !! Z.to_nat (choice - 1) = Some instance
    | NoSelection => exists input, answer = Ok input /\ Atoi (TrimSpace input) = Some 0%Z
    | Refused _ => True
    | OutOfRange => False
    end.
Proof.
  unfold SelectInstance. intros Hselect.
  assert (forall events : list MenuEvent,
    length (Menu LineSelectHeader
            :: imap (fun i instance =>
                       Menu (LineInstanceOption (i + 1) (Name instance) (Zone instance)
                               (Status instance))) instances
            ++ events) = length instances + S (length events)) as Hshown.
  { intros events. cbn. rewrite length_app, length_imap. lia. }
  destruct stdin as [|[input|err] stdin]; [done| |].
  - destruct (Atoi (TrimSpace input)) as [choice|] eqn:Hparse.
    + destruct (Z.eqb_spec choice 0) as [->|Hnonzero].
      * injection Hselect as <- <- <-. exists (Ok input).
        split; [done|]. split; [by rewrite Hshown|]. eauto.
      * destruct (Z.ltb_spec choice 1); cbn [orb] in Hselect.
        { injection Hselect as <- <- <-. exists (Ok input).
          split; [done|]. split; [by rewrite Hshown|done]. }
        destruct (Z.ltb_spec (Z.of_nat (length instances)) choice); cbn [orb] in Hselect.
        { injection Hselect as <- <- <-. exists (Ok input).
          split; [done|]. split; [by rewrite Hshown|done]. }
        destruct (instances !! Z.to_nat (choice - 1)) as [instance|] eqn:Hat.
        -- injection Hselect as <- <- <-. exists (Ok input).
           split; [done|]. split; [by rewrite Hshown|].
           exists input, choice. repeat split; auto; lia.
        -- apply lookup_ge_None in Hat. lia.
    + injection Hselect as <- <- <-. exists (Ok input).
      split; [done|]. split; [by rewrite Hshown|done].
  - injection Hselect as <- <- <-. exists (Err err).
    split; [done|]. split; [by rewrite Hshown|done].
Qed.

(** X25: [SelectInstance] never indexes the list outside its bounds; it
    reads exactly one answer and lists every instance; it selects an
    instance exactly for a number between 1 and the length of the list,
    namely the instance at that position, and selects nothing for 0. *)
Theorem select_instance_in_bounds (instances : list Instance) (stdin : Stdin)
    (selection : Selection) (shown : list MenuEvent) (rest : Stdin) :
  SelectInstance instances stdin = Some (selection, shown, rest) ->
  selection <> OutOfRange /\
  length stdin = S (length rest) /\
  length shown = length instances + 2 /\
  (forall instance, selection = Selected instance ->
     exists input choice,
       stdin = Ok input :: rest /\ Atoi (TrimSpace input) = Some choice /\
       (1 <= choice <= Z.of_nat (length instances))%Z /\
       instances !! Z.to_nat (choice - 1) = Some instance) /\
  (forall input choice,
     stdin = Ok input :: rest -> Atoi (TrimSpace input) = Some choice ->
     (1 <= choice <= Z.of_nat (length instances))%Z ->
     exists instance, selection = Selected instance).
Proof.
  intros Hselect.
  destruct (SelectInstance_cases _ _ _ _ _ Hselect) as (answer & -> & Hshown & Hcase).
  split; [by intros ->|]. split; [done|]. split; [done|]. split.
  - intros instance ->. destruct Hcase as (input & choice & -> & ? & ? & ?). eauto 6.
  - intros input choice [= ->] Hparse Hrange. unfold SelectInstance in Hselect.
    rewrite Hparse in Hselect.
    destruct (Z.eqb_spec choice 0); [lia|].
    destruct (Z.ltb_spec choice 1); [lia|].
    destruct (Z.ltb_spec (Z.of_nat (length instances)) choice); [lia|].
    cbn [orb] in Hselect.
    destruct (instances !! Z.to_nat (choice - 1)) as [instance|];
      injection Hselect as <- _; [eauto|].
    by destruct Hcase.
Qed.

Lemma lifecycleCalls_app events events' :
  lifecycleCalls (events ++ events') = lifecycleCalls events ++ lifecycleCalls events'.
Proof. apply omap_app. Qed.

Lemma lifecycleCalls_lines {A : Type} (line : nat -> A -> MenuLine) (l : list A) :
  lifecycleCalls (imap (fun i x => Menu (line i x)) l) = [].
Proof.
  revert line. induction l as [|x l IH]; intros line; [done|].
  rewrite imap_cons. cbn. apply (IH (fun i => line (S i))).
Qed.

Lemma lifecycleCalls_shown (instances : list Instance) stdin selection shown rest :
  SelectInstance instances stdin = Some (selection, shown, rest) ->
  lifecycleCalls shown = [].
Proof.
  unfold SelectInstance. intros Hselect.
  assert (lifecycleCalls
            (Menu LineSelectHeader
             :: imap (fun i instance =>
                        Menu (LineInstanceOption (i + 1) (Name instance) (Zone instance)
                                (Status instance))) instances
             ++ [Menu LineSelectPrompt]) = []) as Hquiet.
  { change (lifecycleCalls
              ([Menu LineSelectHeader]
               ++ imap (fun i instance =>
                          Menu (LineInstanceOption (i + 1) (Name instance) (Zone instance)
                                  (Status instance))) instances
               ++ [Menu LineSelectPrompt]) = []).
    rewrite !lifecycleCalls_app.
    by rewrite (lifecycleCalls_lines
                  (fun i instance => LineInstanceOption (i + 1) (Name instance)
                                       (Zone instance) (Status instance))). }
  repeat case_match; simplify_eq; exact Hquiet.
Qed.

(** X26: the start handler issues at most one call, a start of an instance
    of the list it was given, and the stop handler at most one call, a stop
    of such an instance; neither issues a call when the selection is
    refused or is 0. *)
Theorem lifecycle_handlers_target_selection (instances : list Instance) (lc : Lifecycle)
    (stdin : Stdin) :
  (forall events rest,
     handleStartInstance instances lc stdin = Some (events, rest) ->
     match SelectInstance instances stdin with
     | Some (Selected instance, _, _) =>
         instance ∈ instances /\
         lifecycleCalls events
         = [StartCall (Project instance) (Zone instance) (Name instance)]
     | _ => lifecycleCalls events = []
     end) /\
  (forall events rest,
     handleStopInstance instances lc stdin = Some (events, rest) ->
     match SelectInstance instances stdin with
     | Some (Selected instance, _, _) =>
         instance ∈ instances /\
         lifecycleCalls events
         = [StopCall (Project instance) (Zone instance) (Name instance)]
     | _ => lifecycleCalls events = []
     end).
Proof.
  split; intros events rest Hhandle;
    unfold handleStartInstance, handleStopInstance in Hhandle;
    destruct (SelectInstance instances stdin) as [[[selection shown] rest']|] eqn:Hselect;
    try done;
    pose proof (lifecycleCalls_shown _ _ _ _ _ Hselect) as Hquiet;
    destruct (SelectInstance_cases _ _ _ _ _ Hselect) as (answer & _ & _ & Hcase);
    destruct selection as [instance| |why|]; try done; simplify_eq;
    rewrite ?lifecycleCalls_app, ?Hquiet; try done.
  - destruct Hcase as (input & choice & _ & _ & _ & Hat).
    split; [by eapply list_elem_of_lookup_2|].
    unfold StartInstance in Hhandle.
    destruct (StartAnswer lc _ _ _); simplify_eq;
      rewrite !lifecycleCalls_app, Hquiet; done.
  - destruct Hcase as (input & choice & _ & _ & _ & Hat).
    split; [by eapply list_elem_of_lookup_2|].
    unfold StopInstance in Hhandle.
    destruct (StopAnswer lc _ _ _); simplify_eq;
      rewrite !lifecycleCalls_app, Hquiet; done.
Qed.

End ConsoleProperties.

Section MenuProperties.
Context {runtime : Runtime} {yaml : Yaml} {os : Os}.

Lemma engineEvents_app events events' :
  engineEvents (events ++ events') = engineEvents events ++ engineEvents events'.
Proof. apply omap_app. Qed.

Lemma engineEvents_Engine (events : list Event) : engineEvents (Engine <$> events) = events.
Proof.
  unfold engineEvents. induction events as [|e events IH]; [done|]. cbn. by f_equal.
Qed.

Lemma engineEvents_menu line events :
  engineEvents (Menu line :: events) = engineEvents events.
Proof. done. Qed.

Lemma engineEvents_lines {A : Type} (line : A -> MenuLine) (l : list A) :
  engineEvents ((fun x => Menu (line x)) <$> l) = [].
Proof. by induction l. Qed.

Lemma engineEvents_resultLines conversions : engineEvents (resultLines conversions) = [].
Proof. unfold resultLines. by induction conversions. Qed.

Lemma summaryLines_app events events' :
  summaryLines (events ++ events') = summaryLines events ++ summaryLines events'.
Proof. apply omap_app. Qed.

Lemma summaryLines_Engine (events : list Event) : summaryLines (Engine <$> events) = [].
Proof. by induction events. Qed.

Lemma summaryLines_lines {A : Type} (line : A -> MenuLine) (l : list A) :
  (forall x successful total, line x <> LineConverted successful total) ->
  summaryLines ((fun x => Menu (line x)) <$> l) = [].
Proof.
  intros Hline. induction l as [|x l IH]; [done|]. cbn.
  destruct (line x) eqn:Hx; try done. by destruct (Hline x successful total).
Qed.

Lemma summaryLines_resultLines conversions : summaryLines (resultLines conversions) = [].
Proof. unfold resultLines. by induction conversions. Qed.

Lemma missingReport_quiet missing :
  patches (missingReport missing) = [] /\ pauses (missingReport missing) = [].
Proof.
  unfold missingReport. destruct (0 <? length missing); [|done].
  cbn. unfold patches, pauses. rewrite !omap_app. cbn.
  split; rewrite app_nil_r; by induction missing.
Qed.

Lemma CheckInstancesFromFile_quiet projectID instances (fs : FileSystem) result printed :
  CheckInstancesFromFile projectID instances fs = (result, printed) ->
  patches printed = [] /\ pauses printed = [].
Proof.
  unfold CheckInstancesFromFile. intros Hcheck.
  repeat case_match; simplify_eq; try done; apply missingReport_quiet.
Qed.

Lemma countSuccessful_filter conversions :
  countSuccessful conversions
  = length (filter (fun ok => ok = true) (Success <$> conversions)).
Proof.
  unfold countSuccessful.
  assert (forall n,
    foldl (fun successful conversion =>
             if Success conversion then successful + 1 else successful) n conversions
    = n + length (filter (fun ok => ok = true) (Success <$> conversions))) as Hfold.
  { induction conversions as [|c conversions IH]; intros n; [cbn; lia|].
    cbn [foldl fmap list_fmap]. rewrite IH, filter_cons.
    destruct (Success c); case_decide; try done; cbn [length]; lia. }
  apply (Hfold 0).
Qed.

Lemma VerifyConversion_success conversions svc :
  Success <$> results (VerifyConversion conversions svc) = Success <$> conversions.
Proof.
  pose proof (VerifyConversion_verifiedFrom conversions svc) as Hrel.
  induction Hrel as [|before after befores afters Hstep _ IH]; [done|].
  cbn [fmap list_fmap]. rewrite IH. f_equal.
  by destruct Hstep as [->|(_ & newOS & ->)].
Qed.


Ltac engine_norm :=
  repeat first
    [ rewrite engineEvents_menu
    | rewrite engineEvents_app
    | rewrite engineEvents_Engine
    | rewrite engineEvents_resultLines
    | rewrite (engineEvents_lines
                 (fun instance => LineToConvert (Zone instance) (Name instance)
                                    (strings.Join (LicenseCodes instance) ", ")
                                    (Status instance))) ];
  cbn [engineEvents omap list_omap app].

(** X28: the mass mover sends nothing without a match and a yes: either the
    matcher succeeded and the operator's answer, trimmed and lowercased, is
    y, and then the requests and pauses are exactly those of converting and
    verifying the matched instances; or no patch request is sent and no
    pause is made. *)
Theorem conversion_needs_confirmation (instances : list Instance)
    (during after : ComputeService) (projectID : string) (fs : FileSystem)
    (stdin : Stdin) (events : list MenuEvent) (rest : Stdin) :
  handleBYOStoPAYG instances during after projectID fs stdin = Some (events, rest) ->
  (exists matched printed input entered,
     CheckInstancesFromFile projectID instances fs = (Ok matched, printed) /\
     stdin = Ok input :: entered :: rest /\
     strings.ToLower (TrimSpace input) = "y" /\
     patches (engineEvents events)
     = patches (trace (convertAndVerify matched during after)) /\
     pauses (engineEvents events)
     = pauses (trace (convertAndVerify matched during after))) \/
  (patches (engineEvents events) = [] /\ pauses (engineEvents events) = []).
Proof.
  unfold handleBYOStoPAYG. intros Hhandle.
  destruct (CheckInstancesFromFile projectID instances fs) as [[matched|err] printed]
    eqn:Hcheck;
    destruct (CheckInstancesFromFile_quiet _ _ _ _ _ Hcheck) as [Hpatches Hpauses].
  2: { right. injection Hhandle as <- _. engine_norm. by rewrite !app_nil_r. }
  destruct stdin as [|[input|err] stdin]; [done| |].
  2: { right. injection Hhandle as <- _. engine_norm. by rewrite !app_nil_r. }
  destruct (String.eqb (strings.ToLower (TrimSpace input)) "y") eqn:Hyes;
    cbn [negb] in Hhandle.
  2: { right. injection Hhandle as <- _. engine_norm. by rewrite !app_nil_r. }
  destruct stdin as [|entered stdin]; [done|]. injection Hhandle as <- <-.
  left. exists matched, printed, input, entered.
  split; [done|]. split; [done|]. split; [by apply String.eqb_eq|].
  engine_norm. unfold convertAndVerify. cbn [trace].
  rewrite !patches_app, !pauses_app, Hpatches, Hpauses. cbn [app].
  by rewrite !app_nil_r.
Qed.

(** X29: after a match and a yes (and one more answer for the closing
    prompt) the mass mover returns, and its summary line reads X/Y with Y
    the number of matched instances and X the number of them whose patch
    was accepted. *)
Theorem conversion_summary_counts (instances matched : list Instance)
    (during after : ComputeService) (projectID : string) (fs : FileSystem)
    (printed : list Event) (input : string) (entered : Result string) (rest : Stdin) :
  CheckInstancesFromFile projectID instances fs = (Ok matched, printed) ->
  strings.ToLower (TrimSpace input) = "y" ->
  exists events,
    handleBYOStoPAYG instances during after projectID fs (Ok input :: entered :: rest)
    = Some (events, rest) /\
    summaryLines events
    = [(length (filter (fun ok => ok = true)
                  (imap (fun j instance => patchAccepted (during j) instance) matched)),
        length matched)].
Proof.
  intros Hcheck Hyes. unfold handleBYOStoPAYG. rewrite Hcheck, Hyes.
  cbn [String.eqb Ascii.eqb Bool.eqb negb]. eexists. split; [reflexivity|].
  rewrite !summaryLines_app, !summaryLines_Engine, summaryLines_resultLines.
  rewrite (summaryLines_lines
             (fun instance => LineToConvert (Zone instance) (Name instance)
                                (strings.Join (LicenseCodes instance) ", ")
                                (Status instance))) by done.
  cbn [summaryLines omap list_omap app].
  rewrite countSuccessful_filter, VerifyConversion_success.
  rewrite ConvertToPAYG_unfold. cbn [results].
  rewrite recordsFrom_success.
  do 2 f_equal.
  transitivity
    (length (Success <$> results (VerifyConversion (recordsFrom during 0 matched) after))).
  { by rewrite length_fmap. }
  by rewrite VerifyConversion_success, length_fmap, recordsFrom_length.
Qed.

Lemma lifecycleCalls_export (instances : list Instance) projectID (fs : FileSystem) :
  lifecycleCalls (handleExportInstances instances projectID fs).1 = [] /\
  engineEvents (handleExportInstances instances projectID fs).1 = [].
Proof. unfold handleExportInstances. by repeat case_match. Qed.

(** X30: the menu is left without a refresh only by the answer 0, reached
    after answers that each kept the menu open, and by then no start, stop
    or patch was issued; and answers that are read errors, not numbers, or
    numbers outside 0 to 5 never leave the menu, however many there are. *)
Theorem menu_exit_only_on_zero (instances : list Instance) (lc : Lifecycle)
    (during after : ComputeService) (projectID : string) :
  (forall (stdin : Stdin) (fs fs' : FileSystem) events rest,
     ManageInstances instances lc during after projectID fs stdin
     = Some (false, events, fs', rest) ->
     exists skipped input,
       stdin = skipped ++ Ok input :: rest /\
       Atoi (TrimSpace input) = Some 0%Z /\
       lifecycleCalls events = [] /\ engineEvents events = []) /\
  (forall (answers : Stdin) (fs : FileSystem),
     Forall staysInMenu answers ->
     ManageInstances instances lc during after projectID fs answers = None).
Proof.
  split.
  - intros stdin. induction stdin as [|answer stdin IH]; intros fs fs' events rest Hrun;
      [done|].
    cbn [ManageInstances] in Hrun.
    assert (forall (shown : list MenuEvent) (fs0 : FileSystem),
      lifecycleCalls shown = [] -> engineEvents shown = [] ->
      match ManageInstances instances lc during after projectID fs0 stdin with
      | Some (refresh, later, fs1, stdin1) =>
          Some (refresh, [Menu LineMenu; Menu LineChoicePrompt] ++ shown ++ later,
                fs1, stdin1)
      | None => None
      end = Some (false, events, fs', rest) ->
      exists skipped input,
        answer :: stdin = skipped ++ Ok input :: rest /\
        Atoi (TrimSpace input) = Some 0%Z /\
        lifecycleCalls events = [] /\ engineEvents events = []) as Hcontinue.
    { intros shown fs0 Hquiet Hquiet' Hlater.
      destruct (ManageInstances instances lc during after projectID fs0 stdin)
        as [[[[refresh later] fs1] stdin1]|] eqn:Hrest; [|done].
      injection Hlater as -> <- <- <-.
      destruct (IH _ _ _ _ Hrest) as (skipped & input & -> & Hzero & Hcalls & Hengine).
      exists (answer :: skipped), input. split; [done|]. split; [done|].
      change (lifecycleCalls (shown ++ later) = [] /\ engineEvents (shown ++ later) = []).
      by rewrite lifecycleCalls_app, engineEvents_app, Hquiet, Hquiet', Hcalls, Hengine. }
    destruct answer as [input|err]; [|by apply (Hcontinue [Menu (LineReadError err)] fs)].
    destruct (Atoi (TrimSpace input)) as [choice|] eqn:Hparse;
      [|by apply (Hcontinue [Menu LineEnterNumber] fs)].
    destruct choice as [|p|p].
    + injection Hrun as <- <- <-. exists [], input. done.
    + destruct p as [[[|[]|]|[|[]|]|]|[[|[]|]|[|[]|]|]|];
        try (by apply (Hcontinue [Menu LineInvalidChoice] fs));
        try (by repeat case_match).
      destruct (handleExportInstances instances projectID fs) as [shown fs0] eqn:Hexport.
      pose proof (lifecycleCalls_export instances projectID fs) as [Hq Hq'].
      rewrite Hexport in Hq, Hq'. by apply (Hcontinue shown fs0).
    + by apply (Hcontinue [Menu LineInvalidChoice] fs).
  - intros answers. induction answers as [|answer answers IH]; intros fs Hstay; [done|].
    apply Forall_cons in Hstay as [Hanswer Hstay]. cbn [ManageInstances].
    destruct answer as [input|err]; [|by rewrite IH].
    unfold staysInMenu in Hanswer.
    destruct (Atoi (TrimSpace input)) as [choice|]; [|by rewrite IH].
    destruct choice as [|p|p]; [lia| |by rewrite IH].
    destruct p as [[[|[]|]|[|[]|]|]|[[|[]|]|[|[]|]|]|]; try lia; by rewrite IH.
Qed.

End MenuProperties.

Lemma select_instance_in_bounds_witness :
  exists input choice,
    [Ok " 2 "] = Ok input :: [] /\ @Atoi sampleRuntime (@TrimSpace sampleRuntime input) = Some choice /\
    (1 <= choice <= Z.of_nat (length [sampleInstance "vm-1" "RUNNING" [];
                                      sampleInstance "vm-2" "TERMINATED" []]))%Z /\
    [sampleInstance "vm-1" "RUNNING" []; sampleInstance "vm-2" "TERMINATED" []]
      !! Z.to_nat (choice - 1)
    = Some (sampleInstance "vm-2" "TERMINATED" []).
Proof.
  destruct (@select_instance_in_bounds sampleRuntime
              [sampleInstance "vm-1" "RUNNING" []; sampleInstance "vm-2" "TERMINATED" []]
              [Ok " 2 "] (Selected (sampleInstance "vm-2" "TERMINATED" [])) _ [] eq_refl)
    as (_ & _ & _ & Hselected & _).
  exact (Hselected _ eq_refl).
Defined.


Lemma conversion_needs_confirmation_witness :
  let live := [sampleInstance "vm-1" "RUNNING" ["rhel-byos-cloud:rhel-8-byos"]] in
  match @handleBYOStoPAYG sampleRuntime parsedYaml live
          (fun _ => healthyBackend) (fun _ => healthyBackend) "demo"
          (fileOf "demo" (toExport <$> live)) [Ok "Y"; Ok ""] with
  | Some (events, rest) =>
      patches (engineEvents events)
      = [(patchURL (sampleInstance "vm-1" "RUNNING" []) "boot-1",
          patchBody "boot-1" rhel8Server)] /\
      pauses (engineEvents events) = [5%Z; 15%Z]
  | None => False
  end.
Proof.
  intros live.
  destruct (@handleBYOStoPAYG sampleRuntime parsedYaml live
              (fun _ => healthyBackend) (fun _ => healthyBackend) "demo"
              (fileOf "demo" (toExport <$> live)) [Ok "Y"; Ok ""])
    as [[events rest]|] eqn:Hhandle; [|vm_compute in Hhandle; discriminate].
  destruct (@conversion_needs_confirmation sampleRuntime parsedYaml _ _ _ _ _ _ _ _ Hhandle)
    as [(matched & printed & input & entered & Hcheck & _ & _ & -> & ->)|[Hnone _]].
  - vm_compute in Hcheck. injection Hcheck as <- _. split; reflexivity.
  - vm_compute in Hhandle. injection Hhandle as <- _. vm_compute in Hnone. discriminate.
Defined.

Lemma conversion_summary_counts_witness :
  let live := [sampleInstance "vm-1" "RUNNING" ["rhel-byos-cloud:rhel-8-byos"];
               sampleInstance "vm-2" "RUNNING" ["debian-cloud:debian-12"]] in
  exists events,
    @handleBYOStoPAYG sampleRuntime parsedYaml live
      (fun _ => healthyBackend) (fun _ => healthyBackend) "demo"
      (fileOf "demo" (toExport <$> live)) (Ok " y " :: Ok "" :: [])
    = Some (events, []) /\
    summaryLines events = [(1, 2)].
Proof.
  intros live.
  exact (@conversion_summary_counts sampleRuntime parsedYaml live live
           (fun _ => healthyBackend) (fun _ => healthyBackend) "demo"
           (fileOf "demo" (toExport <$> live)) [] " y " (Ok "") [] eq_refl eq_refl).
Defined.
